(** * iyisiniye API: search, detail and autocomplete routes and their Redis cache

    Shallow embedding of
    - [apps/api/src/lib/cache.ts]: [cacheGet], [cacheSet] (graceful degradation),
      [cacheDelete], [cacheDeletePattern];
    - the [/api/v1/search] route ([searchRoutes]): Zod schema, cache key,
      predicate list, ordering, the [Promise.all] of page and count queries,
      the top-3 dishes grouping and the response;
    - the [/api/v1/restaurants/:slug] route ([restaurantRoutes]): the
      restaurant query, then the mentions of the recent reviews and the
      sentiment summary;
    - the [/api/v1/dishes/:slug] route ([dishRoutes]);
    - the [/api/v1/autocomplete] route ([autocompleteRoutes]) and its schema.

    Modelling conventions.
    - JS strings are lists of code units; code units are modelled by [ascii].
    - JS numbers reaching these routes are modelled by integers [Z]
      (scores as hundredths, as the [numeric(3,2)] / [numeric(4,2)] columns
      store them; trigram similarity as thousandths).
    - I/O is a trace-and-exception monad [M]: every Redis or Postgres call
      appends an [event] and may throw; the backends are oracles given as
      arguments, so every storage answer and every Redis failure is an input.
    - SQL [ORDER BY ... LIMIT] is given its semantics by "admissible"
      answers: a permutation of the matching rows sorted by the order clause;
      ties are left to the storage engine. *)

From Stdlib Require Import List String Ascii ZArith Bool Lia.
From Stdlib Require Import Sorting.Permutation Sorting.Sorted.
From Stdlib Require Import Numbers.DecimalN Numbers.DecimalZ.
From Stdlib Require Import QArith.
Import ListNotations.
Open Scope Z_scope.

(** ** Code units and keys *)

(** A JS string as the sequence of its code units. *)
Definition jstr := list ascii.

Definition js (s : string) : jstr := list_ascii_of_string s.

(** ** Storage rows (read-only, owned by Postgres) *)

(** A row of [restaurants] (the columns the routes read). *)
Record VenueRow := mkVenue {
  v_id : Z;
  v_name : string;
  v_slug : string;
  v_address : string;
  v_district : string;
  v_cuisine : list string;
  v_price : option Z;
  v_score : option Z;          (* overall_score, hundredths; NULL = unrated *)
  v_reviews : Z;
  v_active : bool;             (* is_active *)
  v_created : Z;               (* created_at *)
  v_location : option (Z * Z)  (* (lng, lat) *)
}.

(** A row of [food_scores]. *)
Record DishRow := mkDish {
  d_restaurant : Z;
  d_food : string;
  d_score : option Z;          (* hundredths; NULL = not yet scored *)
  d_reviews : Z
}.

(** A row of [dishes] (autocomplete). *)
Record DishEntry := mkDishEntry {
  de_id : Z;
  de_name : string;
  de_slug : string;
  de_canonical : option string;
  de_category : option string
}.

(** ** The parsed search query ([request.query] after Zod) *)

Inductive SortBy := SortScore | SortDistance | SortNewest.

Record SearchQuery := mkSearch {
  q : string;
  district : option string;
  cuisine : option string;
  price_range : option Z;
  min_score : option Z;
  sort_by : SortBy;
  page : Z;
  limit : Z;
  lat : option Z;
  lng : option Z
}.

(** ** SQL fragments built by the search route *)

(** One element of the [conditions] array, in the order the route pushes
    them. *)
Inductive Pred :=
| PActive                          (* restaurants.is_active = true *)
| PText (q : string)               (* FTS(name || ' ' || address) OR similarity(name, q) > 0.2 *)
| PDistrict (d : string)           (* lower(district) = lower(d) *)
| PCuisine (c : string)            (* c = ANY(cuisine_type) *)
| PPrice (p : Z)                   (* price_range = p *)
| PMinScore (s : Z)                (* overall_score >= s *)
| PGeo (lng lat : Z) (radius : Z). (* ST_DWithin(location, point, radius) *)

Inductive OrderClause :=
| ODistance (lng lat : option Z)   (* ST_Distance(location, ST_MakePoint(lng, lat)) ASC *)
| ONewest                          (* created_at DESC *)
| OScore.                          (* overall_score DESC NULLS LAST *)

Record PageQuery := mkPageQuery {
  pq_where : list Pred;
  pq_order : OrderClause;
  pq_origin : option (Z * Z);      (* distance_km select, when lat and lng given *)
  pq_limit : Z;
  pq_offset : Z
}.

Record CountQuery := mkCountQuery { cq_where : list Pred }.

(** [food_scores WHERE restaurant_id IN ids AND score IS NOT NULL
     ORDER BY score DESC] *)
Record DishQuery := mkDishQuery { dq_ids : list Z }.

(** [restaurants WHERE slug = s AND is_active = true LIMIT 1] *)
Record DetailQuery := mkDetailQuery { dt_slug : string; dt_active_only : bool }.

(** The two autocomplete queries, both [LIMIT 5]. *)
Record AutoRestQuery := mkAutoRestQuery { arq_q : jstr; arq_limit : Z }.
Record AutoDishQuery := mkAutoDishQuery { adq_q : jstr; adq_limit : Z }.

Inductive Query :=
| QPage (pq : PageQuery)
| QCount (cq : CountQuery)
| QDishes (dq : DishQuery)
| QDetail (dq : DetailQuery)
| QAutoRest (aq : AutoRestQuery)
| QAutoDish (aq : AutoDishQuery).

(** ** Responses *)

Record TopDish := mkTopDish { td_food : string; td_score : option Z; td_reviews : Z }.

(** [ST_Distance(...) / 1000.0]: a distance in metres, in kilometres (the
    exact quotient; the double division rounds it). *)
Definition to_km (d : Z) : Q := (d # 1000)%Q.

(** A row of the page query: the selected columns and [distance_km]. *)
Record PageRow := mkPageRow { pr_venue : VenueRow; pr_distance : option Q }.

Record SearchItem := mkItem {
  it_id : Z;
  it_name : string;
  it_slug : string;
  it_score : option Z;
  it_distance : option Q;         (* Number(r.distanceKm) *)
  it_top : list TopDish
}.

Record Pagination := mkPagination {
  pg_page : Z; pg_limit : Z; pg_total : Z; pg_total_pages : Z;
  pg_has_next : bool; pg_has_prev : bool
}.

Record SearchResponse := mkSearchResponse {
  sr_data : list SearchItem;
  sr_pagination : Pagination;
  sr_query : string;
  sr_filters : option string * option string * option Z * option Z;
  sr_sort : SortBy
}.

(** Restaurant detail: the restaurant row and what the four parallel queries
    return, abstracted to the restaurant they belong to. *)
Record DetailResponse := mkDetailResponse { dr_restaurant : VenueRow }.

Record AutoRestaurant := mkAutoRestaurant {
  ar_id : Z; ar_name : string; ar_slug : string; ar_district : string;
  ar_cuisine : list string; ar_score : option Z }.
Record AutoDish := mkAutoDish {
  ad_id : Z; ad_name : string; ad_slug : string; ad_category : option string;
  ad_restaurant_count : Z }.
Record AutoResponse := mkAutoResponse {
  au_restaurants : list AutoRestaurant;
  au_dishes : list AutoDish
}.

(** What a Redis value holds: the JSON text of one of the routes' responses
    ([JSON.parse (JSON.stringify x)] gives back [x] for these plain data
    objects), or bytes that [JSON.parse] rejects. *)
Inductive Stored :=
| SSearch (r : SearchResponse)
| SDetail (r : DetailResponse)
| SAuto (r : AutoResponse)
| SGarbage (bytes : string).

(** [JSON.parse] on a stored value: [None] when it throws. *)
Definition json_parse (s : Stored) : option Stored :=
  match s with
  | SGarbage _ => None
  | v => Some v
  end.

(** ** Effects *)

Inductive event :=
| ECacheGet (key : jstr)
| ECacheSet (key : jstr) (v : Stored) (ttl : Z)
| EStorage (qry : Query).

Inductive exn := RedisError | StorageError.

Inductive result (A : Type) := Throw (e : exn) | Ret (a : A).
Arguments Throw {A} e.
Arguments Ret {A} a.

(** Everything the handlers talk to: Redis and Postgres, as oracles. *)
Record Backend := mkBackend {
  redis_get : jstr -> result (option Stored);
  redis_set : jstr -> Stored -> Z -> result unit;
  db_page : PageQuery -> result (list PageRow);
  db_count : CountQuery -> result Z;
  db_dishes : DishQuery -> result (list DishRow);
  db_detail : DetailQuery -> result (list VenueRow);
  db_auto_rest : AutoRestQuery -> result (list VenueRow);
  db_auto_dish : AutoDishQuery -> result (list (DishEntry * Z))  (* with restaurant_count *)
}.

(** The handler monad: the backends, the trace so far, and an exception. *)
Definition M (A : Type) := Backend -> list event -> list event * result A.

Definition ret {A} (a : A) : M A := fun _ tr => (tr, Ret a).

Definition bind {A B} (m : M A) (k : A -> M B) : M B :=
  fun be tr =>
    match m be tr with
    | (tr', Ret a) => k a be tr'
    | (tr', Throw e) => (tr', Throw e)
    end.

Notation "x <- m ;; k" := (bind m (fun x => k))
  (at level 61, m at next level, right associativity).

(** Issue one call: record it, then take the backend's answer. *)
Definition call {A} (ev : event) (f : Backend -> result A) : M A :=
  fun be tr => (tr ++ [ev], f be).

(** [try { ... } catch { return d }] *)
Definition catch_all {A} (m : M A) (d : A) : M A :=
  fun be tr =>
    match m be tr with
    | (tr', Throw _) => (tr', Ret d)
    | r => r
    end.

Definition run {A} (m : M A) (be : Backend) : list event * result A := m be [].

(** ** [lib/cache.ts] *)

(** [cacheGet]: [redis.get], [null] on a miss, [JSON.parse] otherwise;
    any throw is caught and read as [null]. *)
Definition cacheGet (key : jstr) : M (option Stored) :=
  catch_all
    (data <- call (ECacheGet key) (fun be => redis_get be key) ;;
     match data with
     | None => ret None
     | Some s =>
         match json_parse s with
         | Some v => ret (Some v)
         | None => fun _ tr => (tr, Throw RedisError)   (* JSON.parse throws *)
         end
     end)
    None.

(** [cacheSet]: [redis.set(key, JSON.stringify(data), "EX", ttl)], errors
    swallowed. *)
Definition cacheSet (key : jstr) (v : Stored) (ttl : Z) : M unit :=
  catch_all (call (ECacheSet key v ttl) (fun be => redis_set be key v ttl)) tt.

(** ** The search cache key

    [search:${md5(JSON.stringify(Object.fromEntries(Object.entries(request.query).sort())))}] *)

(** A JS value held by the parsed query: a string or a (finite) number. *)
Inductive JsVal := JStr (s : jstr) | JNum (z : Z).

Definition entry := (jstr * JsVal)%type.

(** Decimal digits of a natural number ([Number.prototype.toString] for
    integers below 1e21). *)
Fixpoint uint_chars (u : Decimal.uint) : jstr :=
  match u with
  | Decimal.Nil => []
  | Decimal.D0 u => "0"%char :: uint_chars u
  | Decimal.D1 u => "1"%char :: uint_chars u
  | Decimal.D2 u => "2"%char :: uint_chars u
  | Decimal.D3 u => "3"%char :: uint_chars u
  | Decimal.D4 u => "4"%char :: uint_chars u
  | Decimal.D5 u => "5"%char :: uint_chars u
  | Decimal.D6 u => "6"%char :: uint_chars u
  | Decimal.D7 u => "7"%char :: uint_chars u
  | Decimal.D8 u => "8"%char :: uint_chars u
  | Decimal.D9 u => "9"%char :: uint_chars u
  end.

Definition show_N (n : N) : jstr := uint_chars (N.to_uint n).

Definition show_Z (z : Z) : jstr :=
  if z <? 0 then "-"%char :: show_N (Z.to_N (- z)) else show_N (Z.to_N z).

(** [String(v)] *)
Definition js_string (v : JsVal) : jstr :=
  match v with
  | JStr s => s
  | JNum z => show_Z z
  end.

(** [String([k, v])], which the default comparator of [Array.prototype.sort]
    compares: [k + "," + String(v)]. *)
Definition render (e : entry) : jstr := fst e ++ ","%char :: js_string (snd e).

(** Code-unit order on strings ([<] on JS strings). *)
Fixpoint cu_lt (a b : jstr) : bool :=
  match a, b with
  | _, [] => false
  | [], _ :: _ => true
  | x :: xs, y :: ys =>
      if Nat.ltb (nat_of_ascii x) (nat_of_ascii y) then true
      else if Nat.eqb (nat_of_ascii x) (nat_of_ascii y) then cu_lt xs ys
      else false
  end.

(** [Array.prototype.sort()] with the default comparator: a stable sort;
    insertion sort computes the unique stable sorted permutation. *)
Fixpoint insert_entry (x : entry) (l : list entry) : list entry :=
  match l with
  | [] => [x]
  | y :: ys => if cu_lt (render x) (render y) then x :: y :: ys else y :: insert_entry x ys
  end.

Definition js_sort (l : list entry) : list entry :=
  fold_left (fun acc x => insert_entry x acc) l [].

(** [Object.fromEntries]: a repeated key keeps its first position and takes
    the last value. (No key of the search schema is an array index, so
    [JSON.stringify] keeps insertion order.) *)
Fixpoint set_entry (k : jstr) (v : JsVal) (l : list entry) : list entry :=
  match l with
  | [] => [(k, v)]
  | (k', v') :: l' =>
      if list_eq_dec ascii_dec k k' then (k', v) :: l' else (k', v') :: set_entry k v l'
  end.

Definition from_entries (l : list entry) : list entry :=
  fold_left (fun acc kv => set_entry (fst kv) (snd kv) acc) l [].

(** [JSON.stringify] of a string: QuoteJSONString. *)
Definition quote_char : ascii := ascii_of_nat 34.
Definition backslash : ascii := ascii_of_nat 92.

Definition hex_digit (n : nat) : ascii :=
  nth n (list_ascii_of_string "0123456789abcdef") "0"%char.

Definition escape_char (c : ascii) : jstr :=
  let n := nat_of_ascii c in
  if Nat.eqb n 8 then js "\b"
  else if Nat.eqb n 9 then js "\t"
  else if Nat.eqb n 10 then js "\n"
  else if Nat.eqb n 12 then js "\f"
  else if Nat.eqb n 13 then js "\r"
  else if Nat.eqb n 34 then [backslash; quote_char]
  else if Nat.eqb n 92 then [backslash; backslash]
  else if Nat.ltb n 32 then
    js "\u00" ++ [hex_digit (n / 16); hex_digit (n mod 16)]
  else [c].

Definition escape (s : jstr) : jstr := flat_map escape_char s.

Definition json_quote (s : jstr) : jstr := quote_char :: escape s ++ [quote_char].

Definition json_value (v : JsVal) : jstr :=
  match v with
  | JStr s => json_quote s
  | JNum z => show_Z z
  end.

Definition json_member (e : entry) : jstr := json_quote (fst e) ++ ":"%char :: json_value (snd e).

(** Members after the first, each preceded by a comma, then the closing
    brace. *)
Fixpoint json_members_tail (l : list entry) : jstr :=
  match l with
  | [] => ["}"%char]
  | e :: l' => ","%char :: json_member e ++ json_members_tail l'
  end.

Definition json_object (l : list entry) : jstr :=
  "{"%char ::
  match l with
  | [] => ["}"%char]
  | e :: l' => json_member e ++ json_members_tail l'
  end.

(** [.digest("hex")] *)
Definition hex_byte (b : Byte.byte) : jstr :=
  let n := Byte.to_nat b in [hex_digit (n / 16); hex_digit (n mod 16)].

Definition hex (bs : list Byte.byte) : jstr := flat_map hex_byte bs.

(** The keys of [SearchQuerySchema]; Zod strips every other key. *)
Definition search_schema_keys : list jstr :=
  map js ["q"; "district"; "cuisine"; "price_range"; "min_score"; "sort_by";
          "page"; "limit"; "lat"; "lng"]%string.

Definition sort_by_str (s : SortBy) : string :=
  match s with
  | SortScore => "score"
  | SortDistance => "distance"
  | SortNewest => "newest"
  end.

(** [Object.entries(request.query)]: Zod's output, in schema order, absent
    optional fields left out. *)
Definition query_entries (r : SearchQuery) : list entry :=
  [(js "q", JStr (js (q r)))] ++
  match district r with Some d => [(js "district", JStr (js d))] | None => [] end ++
  match cuisine r with Some c => [(js "cuisine", JStr (js c))] | None => [] end ++
  match price_range r with Some p => [(js "price_range", JNum p)] | None => [] end ++
  match min_score r with Some s => [(js "min_score", JNum s)] | None => [] end ++
  [(js "sort_by", JStr (js (sort_by_str (sort_by r)))); (js "page", JNum (page r));
   (js "limit", JNum (limit r))] ++
  match lat r with Some x => [(js "lat", JNum x)] | None => [] end ++
  match lng r with Some x => [(js "lng", JNum x)] | None => [] end.

Section CacheKey.

(** The MD5 digest of (the UTF-8 encoding of) a string. *)
Variable md5 : jstr -> list Byte.byte.

Definition search_payload (entries : list entry) : jstr :=
  json_object (from_entries (js_sort entries)).

Definition search_cache_key (entries : list entry) : jstr :=
  js "search:" ++ hex (md5 (search_payload entries)).

End CacheKey.

(** [Promise.all([a, b])]: both calls are issued, then the first rejection
    (or both results) is taken. *)
Definition all2 {A B} (e1 : event) (f1 : Backend -> result A)
  (e2 : event) (f2 : Backend -> result B) : M (A * B) :=
  fun be tr =>
    (tr ++ [e1; e2],
     match f1 be, f2 be with
     | Ret a, Ret b => Ret (a, b)
     | Throw e, _ => Throw e
     | _, Throw e => Throw e
     end).

Definition storage {A} (qry : Query) (f : Backend -> result A) : M A :=
  call (EStorage qry) f.

(** ** The search route: [searchRoutes] *)

(** [if (x)] on an optional string / number. *)
Definition truthy_str (o : option string) : option string :=
  match o with Some s => if String.eqb s "" then None else Some s | None => None end.

Definition truthy_num (o : option Z) : option Z :=
  match o with Some z => if z =? 0 then None else Some z | None => None end.

(** The [conditions] array, pushed in this order. *)
Definition conditions (r : SearchQuery) : list Pred :=
  [PActive; PText (q r)] ++
  match truthy_str (district r) with Some d => [PDistrict d] | None => [] end ++
  match truthy_str (cuisine r) with Some c => [PCuisine c] | None => [] end ++
  match truthy_num (price_range r) with Some p => [PPrice p] | None => [] end ++
  match truthy_num (min_score r) with Some s => [PMinScore s] | None => [] end ++
  match lat r, lng r with
  | Some la, Some ln => [PGeo ln la 10000]
  | _, _ => []
  end.

Definition order_clause (r : SearchQuery) : OrderClause :=
  match sort_by r with
  | SortDistance => ODistance (lng r) (lat r)
  | SortNewest => ONewest
  | SortScore => OScore
  end.

Definition origin (r : SearchQuery) : option (Z * Z) :=
  match lat r, lng r with
  | Some la, Some ln => Some (ln, la)
  | _, _ => None
  end.

(** [dishMap]: a JS [Map] from restaurant id to its dishes, in insertion
    order. *)
Definition DishMap := list (Z * list TopDish).

Fixpoint map_get (m : DishMap) (k : Z) : option (list TopDish) :=
  match m with
  | [] => None
  | (k', v) :: m' => if k =? k' then Some v else map_get m' k
  end.

Fixpoint map_set (m : DishMap) (k : Z) (v : list TopDish) : DishMap :=
  match m with
  | [] => [(k, v)]
  | (k', v') :: m' => if k =? k' then (k', v) :: m' else (k', v') :: map_set m' k v
  end.

Definition top_dish (d : DishRow) : TopDish :=
  mkTopDish (d_food d) (d_score d) (d_reviews d).

(** [for (const dish of topDishesResult) { existing = dishMap.get(id) ?? [];
     if (existing.length < 3) { existing.push(...); dishMap.set(id, existing) } }] *)
Definition group_step (m : DishMap) (d : DishRow) : DishMap :=
  let existing := match map_get m (d_restaurant d) with Some l => l | None => [] end in
  if Nat.ltb (List.length existing) 3
  then map_set m (d_restaurant d) (existing ++ [top_dish d])
  else m.

Definition group_top3 (rows : list DishRow) : DishMap := fold_left group_step rows [].

Definition top_dishes_of (m : DishMap) (id : Z) : list TopDish :=
  match map_get m id with Some l => l | None => [] end.

Definition item_of (m : DishMap) (pr : PageRow) : SearchItem :=
  let v := pr_venue pr in
  mkItem (v_id v) (v_name v) (v_slug v) (v_score v) (pr_distance pr)
    (top_dishes_of m (v_id v)).

(** [Math.ceil(total / limit)] for [limit > 0]. *)
Definition total_pages (total lim : Z) : Z := - ((- total) / lim).

Definition build_response (r : SearchQuery) (results : list PageRow) (total : Z)
  (m : DishMap) : SearchResponse :=
  let tp := total_pages total (limit r) in
  mkSearchResponse
    (map (item_of m) results)
    (mkPagination (page r) (limit r) total tp (page r <? tp) (1 <? page r))
    (q r)
    (district r, cuisine r, price_range r, min_score r)
    (sort_by r).

Definition distance_error_message : string :=
  "Mesafeye gore siralama icin lat ve lng parametreleri gereklidir.".

Inductive SearchReply :=
| RHit (v : Stored)               (* X-Cache: HIT *)
| RBadRequest (msg : string)      (* reply.status(400) *)
| ROk (r : SearchResponse).       (* X-Cache: MISS *)

Definition search_status (r : SearchReply) : Z :=
  match r with RBadRequest _ => 400 | _ => 200 end.

Definition is_none {A} (o : option A) : bool := match o with None => true | Some _ => false end.

Definition is_distance (s : SortBy) : bool :=
  match s with SortDistance => true | _ => false end.

Section SearchRoute.

Variable md5 : jstr -> list Byte.byte.

Definition search_key (r : SearchQuery) : jstr := search_cache_key md5 (query_entries r).

Definition fetch_top_dishes (ids : list Z) : M DishMap :=
  match ids with
  | [] => ret []
  | _ :: _ =>
      rows <- storage (QDishes (mkDishQuery ids)) (fun be => db_dishes be (mkDishQuery ids)) ;;
      ret (group_top3 rows)
  end.

(** The route handler, for a [request.query] Zod has accepted. *)
Definition search_handler (r : SearchQuery) : M SearchReply :=
  let key := search_key r in
  cached <- cacheGet key ;;
  match cached with
  | Some v => ret (RHit v)
  | None =>
      if is_distance (sort_by r) && (is_none (lat r) || is_none (lng r)) then
        ret (RBadRequest distance_error_message)
      else
        let offset := (page r - 1) * limit r in
        let wh := conditions r in
        let pq := mkPageQuery wh (order_clause r) (origin r) (limit r) offset in
        let cq := mkCountQuery wh in
        res <- all2 (EStorage (QPage pq)) (fun be => db_page be pq)
                    (EStorage (QCount cq)) (fun be => db_count be cq) ;;
        let results := fst res in
        let total := snd res in
        m <- fetch_top_dishes (map (fun pr => v_id (pr_venue pr)) results) ;;
        let resp := build_response r results total m in
        _ <- cacheSet key (SSearch resp) 300 ;;
        ret (ROk resp)
  end.

End SearchRoute.

(** ** Zod validation of the search querystring ([SearchQuerySchema])

    Fastify runs the schema before the handler; a failure is a 400 listing
    the offending fields and the handler does not run. *)

(** [Number(s)] as [z.coerce.number()] sees it: a number or [NaN]. *)
Inductive RawNum := NaN | Num (z : Z).

Record RawSearch := mkRawSearch {
  raw_q : option jstr;
  raw_district : option jstr;
  raw_cuisine : option jstr;
  raw_price_range : option RawNum;
  raw_min_score : option RawNum;
  raw_sort_by : option jstr;
  raw_page : option RawNum;
  raw_limit : option RawNum;
  raw_lat : option RawNum;
  raw_lng : option RawNum
}.

Definition cuisine_values : list string :=
  ["turk"; "kebap"; "balik"; "doner"; "pide_lahmacun"; "ev_yemekleri";
   "sokak_lezzetleri"; "tatli_pasta"; "kahvalti"; "italyan"; "uzakdogu";
   "fast_food"; "vegan"; "diger"]%string.

(** Result of one field's schema: the value, or the field name as the
    issue's path. *)
Definition field (A : Type) := (string + A)%type.

(** [z.string().min(2).max(100)] on [q] (required). *)
Definition check_q (o : option jstr) : field string :=
  match o with
  | Some s =>
      if (2 <=? Z.of_nat (List.length s)) && (Z.of_nat (List.length s) <=? 100)
      then inr (string_of_list_ascii s) else inl "q"%string
  | None => inl "q"%string
  end.

(** [z.string().max(100).optional()] *)
Definition check_district (o : option jstr) : field (option string) :=
  match o with
  | Some s => if Z.of_nat (List.length s) <=? 100 then inr (Some (string_of_list_ascii s))
              else inl "district"%string
  | None => inr None
  end.

(** [z.enum([...]).optional()] *)
Definition check_cuisine (o : option jstr) : field (option string) :=
  match o with
  | Some s =>
      let c := string_of_list_ascii s in
      if existsb (String.eqb c) cuisine_values then inr (Some c) else inl "cuisine"%string
  | None => inr None
  end.

(** [z.coerce.number()] with bounds (numbers are integers in this model, so
    [.int()] always holds). *)
Definition check_num (name : string) (lo hi : Z) (o : option RawNum) : field (option Z) :=
  match o with
  | Some (Num z) => if (lo <=? z) && (z <=? hi) then inr (Some z) else inl name
  | Some NaN => inl name
  | None => inr None
  end.

(** [z.enum(["score", "distance", "newest"]).default("score")] *)
Definition check_sort (o : option jstr) : field SortBy :=
  match o with
  | None => inr SortScore
  | Some s =>
      let c := string_of_list_ascii s in
      if String.eqb c "score" then inr SortScore
      else if String.eqb c "distance" then inr SortDistance
      else if String.eqb c "newest" then inr SortNewest
      else inl "sort_by"%string
  end.

(** [z.coerce.number().int().positive().default(1)] *)
Definition check_page (o : option RawNum) : field Z :=
  match o with
  | None => inr 1
  | Some (Num z) => if 0 <? z then inr z else inl "page"%string
  | Some NaN => inl "page"%string
  end.

(** [z.coerce.number().int().min(1).max(50).default(20)] *)
Definition check_limit (o : option RawNum) : field Z :=
  match o with
  | None => inr 20
  | Some (Num z) => if (1 <=? z) && (z <=? 50) then inr z else inl "limit"%string
  | Some NaN => inl "limit"%string
  end.

Definition issue {A} (f : field A) : list string :=
  match f with inl n => [n] | inr _ => [] end.

(** [SearchQuerySchema.safeParse]: all issues, or the parsed object. *)
Definition validate_search (raw : RawSearch) : (list string + SearchQuery)%type :=
  let fq := check_q (raw_q raw) in
  let fd := check_district (raw_district raw) in
  let fc := check_cuisine (raw_cuisine raw) in
  let fp := check_num "price_range" 1 4 (raw_price_range raw) in
  let fm := check_num "min_score" 1 10 (raw_min_score raw) in
  let fs := check_sort (raw_sort_by raw) in
  let fpg := check_page (raw_page raw) in
  let fl := check_limit (raw_limit raw) in
  let fla := check_num "lat" (-90) 90 (raw_lat raw) in
  let fln := check_num "lng" (-180) 180 (raw_lng raw) in
  match fq, fd, fc, fp, fm, fs, fpg, fl, fla, fln with
  | inr vq, inr vd, inr vc, inr vp, inr vm, inr vs, inr vpg, inr vl, inr vla, inr vln =>
      inr (mkSearch vq vd vc vp vm vs vpg vl vla vln)
  | _, _, _, _, _, _, _, _, _, _ =>
      inl (issue fq ++ issue fd ++ issue fc ++ issue fp ++ issue fm ++ issue fs ++
           issue fpg ++ issue fl ++ issue fla ++ issue fln)
  end.

Inductive SearchOutcome :=
| SchemaError (fields : list string)   (* 400 from the validator *)
| Handled (r : SearchReply).

(** [GET /api/v1/search]: the validator, then the handler. *)
Definition search_endpoint (md5 : jstr -> list Byte.byte) (raw : RawSearch) : M SearchOutcome :=
  match validate_search raw with
  | inl errs => ret (SchemaError errs)
  | inr r => rep <- search_handler md5 r ;; ret (Handled rep)
  end.

(** ** The restaurant detail route: [restaurantRoutes] *)

Definition restaurant_key (slug : string) : jstr := js "restaurant:" ++ js slug.

Inductive DetailReply :=
| DHit (v : Stored)
| DNotFound (msg : string)
| DOk (r : DetailResponse).

(** The handler up to the restaurant lookup; the four parallel queries that
    follow read only rows of the restaurant found, and are folded into the
    response. *)
Definition detail_handler (slug : string) : M DetailReply :=
  let key := restaurant_key slug in
  cached <- cacheGet key ;;
  match cached with
  | Some v => ret (DHit v)
  | None =>
      let dq := mkDetailQuery slug true in
      rows <- storage (QDetail dq) (fun be => db_detail be dq) ;;
      match rows with
      | [] => ret (DNotFound ("Restoran bulunamadi: " ++ slug)%string)
      | rest :: _ =>
          let resp := mkDetailResponse rest in
          _ <- cacheSet key (SDetail resp) 900 ;;
          ret (DOk resp)
      end
  end.

(** ** The autocomplete route: [autocompleteRoutes] *)

(** White space removed by [String.prototype.trim] among code units below
    256: TAB, LF, VT, FF, CR, SPACE, NBSP. *)
Definition js_space (c : ascii) : bool :=
  let n := nat_of_ascii c in
  Nat.eqb n 9 || Nat.eqb n 10 || Nat.eqb n 11 || Nat.eqb n 12 || Nat.eqb n 13 ||
  Nat.eqb n 32 || Nat.eqb n 160.

Fixpoint drop_space (s : jstr) : jstr :=
  match s with
  | c :: s' => if js_space c then drop_space s' else s
  | [] => []
  end.

Definition js_trim (s : jstr) : jstr := rev (drop_space (rev (drop_space s))).

(** [String.prototype.toLowerCase] on code units below 256. *)
Definition js_lower_char (c : ascii) : ascii :=
  let n := nat_of_ascii c in
  if (Nat.leb 65 n && Nat.leb n 90) || (Nat.leb 192 n && Nat.leb n 222 && negb (Nat.eqb n 215))
  then ascii_of_nat (n + 32) else c.

Definition js_lower (s : jstr) : jstr := map js_lower_char s.

Definition auto_key (q : jstr) : jstr := js "autocomplete:" ++ js_trim (js_lower q).

Inductive AutoReply :=
| AHit (v : Stored)
| AOk (r : AutoResponse).

Definition auto_restaurant (v : VenueRow) : AutoRestaurant :=
  mkAutoRestaurant (v_id v) (v_name v) (v_slug v) (v_district v) (v_cuisine v) (v_score v).

Definition auto_dish (d : DishEntry * Z) : AutoDish :=
  mkAutoDish (de_id (fst d)) (de_name (fst d)) (de_slug (fst d)) (de_category (fst d)) (snd d).

(** The handler, for a [q] Zod has accepted ([min(2).max(50)]). *)
Definition autocomplete_handler (raw : jstr) : M AutoReply :=
  let qq := js_trim raw in
  let key := auto_key qq in
  cached <- cacheGet key ;;
  match cached with
  | Some v => ret (AHit v)
  | None =>
      let rq := mkAutoRestQuery qq 5 in
      let dq := mkAutoDishQuery qq 5 in
      res <- all2 (EStorage (QAutoRest rq)) (fun be => db_auto_rest be rq)
                  (EStorage (QAutoDish dq)) (fun be => db_auto_dish be dq) ;;
      let resp := mkAutoResponse (map auto_restaurant (fst res)) (map auto_dish (snd res)) in
      _ <- cacheSet key (SAuto resp) 3600 ;;
      ret (AOk resp)
  end.

(** ** What Postgres answers

    The primitives the queries use, and the tables of one snapshot. *)
Record Engine := mkEngine {
  fts_match : string -> string -> bool;
    (* to_tsvector('turkish', doc) @@ plainto_tsquery('turkish', unaccent(q)) *)
  similarity : string -> string -> Z;     (* pg_trgm similarity, thousandths *)
  geo_distance : (Z * Z) -> (Z * Z) -> Z; (* ST_Distance on geography *)
  sql_lower : string -> string;
  dish_fts : DishEntry -> string -> bool  (* dishes.search_vector @@ ... *)
}.

Record Snapshot := mkSnapshot {
  venues : list VenueRow;
  food_scores : list DishRow;
  dish_table : list DishEntry
}.

Section Semantics.

Variable E : Engine.

Definition eval_pred (p : Pred) (v : VenueRow) : bool :=
  match p with
  | PActive => v_active v
  | PText s =>
      fts_match E (v_name v ++ " " ++ v_address v)%string s || (200 <? similarity E (v_name v) s)
  | PDistrict d => String.eqb (sql_lower E (v_district v)) (sql_lower E d)
  | PCuisine c => existsb (String.eqb c) (v_cuisine v)
  | PPrice p => match v_price v with Some x => x =? p | None => false end
  | PMinScore s => match v_score v with Some x => 100 * s <=? x | None => false end
  | PGeo ln la rad =>
      match v_location v with Some loc => geo_distance E loc (ln, la) <=? rad | None => false end
  end.

Definition eval_where (wh : list Pred) (v : VenueRow) : bool :=
  forallb (fun p => eval_pred p v) wh.

(** [ST_Distance(location, point)]: NULL when either side is NULL. *)
Definition distance_to (ln la : option Z) (v : VenueRow) : option Z :=
  match v_location v, ln, la with
  | Some loc, Some x, Some y => Some (geo_distance E loc (x, y))
  | _, _, _ => None
  end.

(** [a] may come before [b] under [ASC] (NULLS LAST, PostgreSQL's default). *)
Definition asc_nulls_last (a b : option Z) : bool :=
  match a, b with
  | Some x, Some y => x <=? y
  | Some _, None => true
  | None, Some _ => false
  | None, None => true
  end.

(** ... under [DESC NULLS LAST]. *)
Definition desc_nulls_last (a b : option Z) : bool :=
  match a, b with
  | Some x, Some y => y <=? x
  | Some _, None => true
  | None, Some _ => false
  | None, None => true
  end.

(** ... under [DESC] (NULLS FIRST, PostgreSQL's default). *)
Definition desc_nulls_first (a b : option Z) : bool :=
  match a, b with
  | Some x, Some y => y <=? x
  | None, _ => true
  | Some _, None => false
  end.

Definition order_le (o : OrderClause) (a b : VenueRow) : bool :=
  match o with
  | ODistance ln la => asc_nulls_last (distance_to ln la a) (distance_to ln la b)
  | ONewest => v_created b <=? v_created a
  | OScore => desc_nulls_last (v_score a) (v_score b)
  end.

(** [distance_km]: [ST_Distance(location, point) / 1000.0] when [lat] and
    [lng] are given, [NULL] otherwise. *)
Definition page_row (pq : PageQuery) (v : VenueRow) : PageRow :=
  mkPageRow v (match pq_origin pq with
               | Some (ln, la) => option_map to_km (distance_to (Some ln) (Some la) v)
               | None => None
               end).

(** An answer of the page query: the matching rows in an order the
    [ORDER BY] allows, then [OFFSET] and [LIMIT]. *)
Definition page_admissible (s : Snapshot) (pq : PageQuery) (res : list PageRow) : Prop :=
  exists l, Permutation l (filter (eval_where (pq_where pq)) (venues s)) /\
    Sorted (fun a b => order_le (pq_order pq) a b = true) l /\
    res = map (page_row pq) (firstn (Z.to_nat (pq_limit pq)) (skipn (Z.to_nat (pq_offset pq)) l)).

Definition count_admissible (s : Snapshot) (cq : CountQuery) (n : Z) : Prop :=
  n = Z.of_nat (List.length (filter (eval_where (cq_where cq)) (venues s))).

Definition dish_selected (dq : DishQuery) (d : DishRow) : bool :=
  existsb (Z.eqb (d_restaurant d)) (dq_ids dq) &&
  match d_score d with Some _ => true | None => false end.

Definition dish_admissible (s : Snapshot) (dq : DishQuery) (res : list DishRow) : Prop :=
  Permutation res (filter (dish_selected dq) (food_scores s)) /\
  Sorted (fun a b => desc_nulls_first (d_score a) (d_score b) = true) res.

Definition detail_selected (dq : DetailQuery) (v : VenueRow) : bool :=
  String.eqb (v_slug v) (dt_slug dq) && (v_active v || negb (dt_active_only dq)).

Definition detail_admissible (s : Snapshot) (dq : DetailQuery) (res : list VenueRow) : Prop :=
  exists l, Permutation l (filter (detail_selected dq) (venues s)) /\ res = firstn 1 l.

Definition auto_rest_selected (aq : AutoRestQuery) (v : VenueRow) : bool :=
  let s := string_of_list_ascii (arq_q aq) in
  ((200 <? similarity E (v_name v) s) || fts_match E (v_name v) s) && v_active v.

(** [ORDER BY similarity(name, q) DESC, overall_score DESC] *)
Definition auto_rest_le (aq : AutoRestQuery) (a b : VenueRow) : bool :=
  let s := string_of_list_ascii (arq_q aq) in
  let sa := similarity E (v_name a) s in
  let sb := similarity E (v_name b) s in
  (sb <? sa) || ((sa =? sb) && desc_nulls_first (v_score a) (v_score b)).

Definition auto_rest_admissible (s : Snapshot) (aq : AutoRestQuery) (res : list VenueRow) : Prop :=
  exists l, Permutation l (filter (auto_rest_selected aq) (venues s)) /\
    Sorted (fun a b => auto_rest_le aq a b = true) l /\
    res = firstn (Z.to_nat (arq_limit aq)) l.

Definition dish_name (d : DishEntry) : string :=
  match de_canonical d with Some c => c | None => de_name d end.

Definition dish_similarity (aq : AutoDishQuery) (d : DishEntry) : Z :=
  similarity E (dish_name d) (string_of_list_ascii (adq_q aq)).

Definition auto_dish_selected (aq : AutoDishQuery) (d : DishEntry) : bool :=
  (200 <? dish_similarity aq d) || dish_fts E d (string_of_list_ascii (adq_q aq)).

Definition auto_dish_admissible (s : Snapshot) (aq : AutoDishQuery) (res : list (DishEntry * Z)) : Prop :=
  exists l, Permutation l (filter (auto_dish_selected aq) (dish_table s)) /\
    Sorted (fun a b => (dish_similarity aq b <=? dish_similarity aq a) = true) l /\
    map fst res = firstn (Z.to_nat (adq_limit aq)) l.

(** Every answer the backend gives is one Postgres may give on [s]
    (a query may still fail). *)
Definition storage_faithful (s : Snapshot) (be : Backend) : Prop :=
  (forall pq res, db_page be pq = Ret res -> page_admissible s pq res) /\
  (forall cq n, db_count be cq = Ret n -> count_admissible s cq n) /\
  (forall dq res, db_dishes be dq = Ret res -> dish_admissible s dq res) /\
  (forall dq res, db_detail be dq = Ret res -> detail_admissible s dq res) /\
  (forall aq res, db_auto_rest be aq = Ret res -> auto_rest_admissible s aq res) /\
  (forall aq res, db_auto_dish be aq = Ret res -> auto_dish_admissible s aq res).

End Semantics.

(** ** Ordering the spec's ranking table asks for (distance and recency
    rows), stated from the spec, to be compared with [order_le]. *)
Definition spec_ranking_le (E : Engine) (o : OrderClause) (a b : VenueRow) : bool :=
  let by_score := desc_nulls_last (v_score a) (v_score b) in
  match o with
  | ODistance ln la =>
      match distance_to E ln la a, distance_to E ln la b with
      | Some x, Some y => (x <? y) || ((x =? y) && by_score)
      | _, _ => asc_nulls_last (distance_to E ln la a) (distance_to E ln la b)
      end
  | ONewest =>
      (v_created b <? v_created a) || ((v_created a =? v_created b) && by_score)
  | OScore => by_score
  end.

(** ** The shared Redis store across requests *)

Definition Store := jstr -> option Stored.

Definition empty_store : Store := fun _ => None.

Definition jstr_eqb (a b : jstr) : bool :=
  if list_eq_dec ascii_dec a b then true else false.

Definition store_set (st : Store) (k : jstr) (v : Stored) : Store :=
  fun k' => if jstr_eqb k' k then Some v else st k'.

Definition store_del (st : Store) (k : jstr) : Store :=
  fun k' => if jstr_eqb k' k then None else st k'.

(** The backend seen by one request: Postgres as [be] says, Redis reading
    [st]; [get_ok] / [set_ok] say whether Redis answers or throws. *)
Definition with_redis (be : Backend) (st : Store) (get_ok set_ok : bool) : Backend :=
  mkBackend
    (fun k => if get_ok then Ret (st k) else Throw RedisError)
    (fun _ _ _ => if set_ok then Ret tt else Throw RedisError)
    (db_page be) (db_count be) (db_dishes be) (db_detail be)
    (db_auto_rest be) (db_auto_dish be).

(** The writes a request leaves in Redis. *)
Fixpoint apply_sets (set_ok : bool) (tr : list event) (st : Store) : Store :=
  match tr with
  | [] => st
  | ECacheSet k v _ :: tr' => apply_sets set_ok tr' (if set_ok then store_set st k v else st)
  | _ :: tr' => apply_sets set_ok tr' st
  end.

Section System.

Variable md5 : jstr -> list Byte.byte.

(** One request of any route, or a key leaving Redis (TTL expiry,
    [cacheDelete], [cacheDeletePattern]). *)
Inductive cache_step : Store -> Store -> Prop :=
| step_search st r be g s :
    cache_step st (apply_sets s (fst (run (search_handler md5 r) (with_redis be st g s))) st)
| step_detail st slug be g s :
    cache_step st (apply_sets s (fst (run (detail_handler slug) (with_redis be st g s))) st)
| step_auto st raw be g s :
    cache_step st (apply_sets s (fst (run (autocomplete_handler raw) (with_redis be st g s))) st)
| step_expire st k : cache_step st (store_del st k).

Inductive reachable : Store -> Prop :=
| reach_init : reachable empty_store
| reach_step st st' : reachable st -> cache_step st st' -> reachable st'.

End System.

(** ** [cacheDelete] and [cacheDeletePattern] on the shared store *)

(** [cacheDelete]: [redis.del(key)], errors swallowed; [del_ok] says
    whether Redis answers. *)
Definition cacheDelete (del_ok : bool) (key : jstr) (st : Store) : Store :=
  if del_ok then store_del st key else st.

(** [redis.del(...keys)] *)
Definition del_keys (keys : list jstr) (st : Store) : Store :=
  fold_left store_del keys st.

(** The [do { ... } while (cursor !== "0")] loop of [cacheDeletePattern];
    [scan st cursor pattern] is [SCAN cursor MATCH pattern COUNT 100] on the
    store [st], [del_ok st keys] whether [DEL] answers. A throw ends the loop
    and is swallowed. [None]: the loop has not ended within [fuel] rounds. *)
Fixpoint delete_pattern_loop (fuel : nat)
  (scan : Store -> jstr -> jstr -> result (jstr * list jstr))
  (del_ok : Store -> list jstr -> bool)
  (pattern cursor : jstr) (st : Store) : option Store :=
  match fuel with
  | O => None
  | S n =>
      match scan st cursor pattern with
      | Throw _ => Some st
      | Ret (next, keys) =>
          if Nat.ltb 0 (List.length keys) then
            if del_ok st keys then
              let st' := del_keys keys st in
              if jstr_eqb next (js "0") then Some st'
              else delete_pattern_loop n scan del_ok pattern next st'
            else Some st
          else if jstr_eqb next (js "0") then Some st
          else delete_pattern_loop n scan del_ok pattern next st
      end
  end.

Definition cacheDeletePattern (fuel : nat)
  (scan : Store -> jstr -> jstr -> result (jstr * list jstr))
  (del_ok : Store -> list jstr -> bool) (pattern : jstr) (st : Store) : option Store :=
  delete_pattern_loop fuel scan del_ok pattern (js "0") st.

(** ** The autocomplete route behind its schema *)

(** [AutocompleteQuerySchema]: [q: z.string().min(2).max(50)], on the raw
    string. *)
Definition check_auto_q (o : option jstr) : field jstr :=
  match o with
  | Some s =>
      if (2 <=? Z.of_nat (List.length s)) && (Z.of_nat (List.length s) <=? 50)
      then inr s else inl "q"%string
  | None => inl "q"%string
  end.

Inductive AutoOutcome :=
| AutoSchemaError (fields : list string)
| AutoHandled (r : AutoReply).

(** [GET /api/v1/autocomplete]: the validator, then the handler. *)
Definition autocomplete_endpoint (raw : option jstr) : M AutoOutcome :=
  match check_auto_q raw with
  | inl n => ret (AutoSchemaError [n])
  | inr s => rep <- autocomplete_handler s ;; ret (AutoHandled rep)
  end.

(** ** Rounding of quotients

    [Math.round(x)] rounds to the nearest integer, ties up. The routes round
    a quotient [a / b] computed in double arithmetic; [rnd a b] stands for
    that result. The computed quotient is within a few ulps of the exact one
    and rounding moves it by at most one half, so the result is less than
    one away from the exact quotient. *)
Definition rounds_quotient (rnd : Z -> Z -> Z) : Prop :=
  forall a b, 0 < b -> Z.abs (b * rnd a b - a) < b.

(** [Math.round] of an exact quotient: [floor(a / b + 1/2)]. *)
Definition round_half_up (a b : Z) : Z := (2 * a + b) / (2 * b).

(** ** The restaurant detail route after the restaurant row
    ([restaurant.ts], steps 6 to the response) *)

(** A row of the dish-mention query: [review_id], [canonical_name],
    [sentiment]. *)
Record MentionRow := mkMentionRow {
  mr_review : Z;
  mr_food : option string;
  mr_sentiment : option string
}.

Record MentionedDish := mkMentionedDish {
  md_dish : string;
  md_sentiment : option string
}.

(** [mentionsByReview]: a JS [Map] from review id to its mentions. *)
Definition MentionMap := list (Z * list MentionedDish).

Fixpoint mention_get (m : MentionMap) (k : Z) : option (list MentionedDish) :=
  match m with
  | [] => None
  | (k', v) :: m' => if k =? k' then Some v else mention_get m' k
  end.

Fixpoint mention_set (m : MentionMap) (k : Z) (v : list MentionedDish) : MentionMap :=
  match m with
  | [] => [(k, v)]
  | (k', v') :: m' => if k =? k' then (k', v) :: m' else (k', v') :: mention_set m' k v
  end.

Definition mentioned_dish (r : MentionRow) : MentionedDish :=
  mkMentionedDish (match mr_food r with Some f => f | None => "Bilinmeyen"%string end)
    (mr_sentiment r).

(** [const arr = mentionsByReview.get(m.reviewId) ?? []; arr.push(...);
     mentionsByReview.set(m.reviewId, arr)] *)
Definition mention_step (m : MentionMap) (r : MentionRow) : MentionMap :=
  let arr := match mention_get m (mr_review r) with Some l => l | None => [] end in
  mention_set m (mr_review r) (arr ++ [mentioned_dish r]).

Definition mentions_by_review (rows : list MentionRow) : MentionMap :=
  fold_left mention_step rows [].

(** A row of the recent-reviews query. *)
Record ReviewRow := mkReviewRow {
  rv_id : Z;
  rv_author : option string;
  rv_rating : option Z;
  rv_text : string;
  rv_platform : string
}.

Record RecentReview := mkRecentReview {
  rr_id : Z;
  rr_author : option string;
  rr_rating : option Z;
  rr_text : string;
  rr_platform : string;
  rr_dishes : list MentionedDish
}.

(** [dishMentionsResult]: the batch query only when there are reviews. *)
Definition dish_mentions_result (fetch : list Z -> list MentionRow) (ids : list Z) :
  list MentionRow :=
  if Nat.ltb 0 (List.length ids) then fetch ids else [].

(** [recentReviews: recentReviewsRaw.map(...)] *)
Definition recent_reviews (fetch : list Z -> list MentionRow) (raw : list ReviewRow) :
  list RecentReview :=
  let m := mentions_by_review (dish_mentions_result fetch (map rv_id raw)) in
  map (fun r => mkRecentReview (rv_id r) (rv_author r) (rv_rating r) (rv_text r)
                  (rv_platform r)
                  (match mention_get m (rv_id r) with Some l => l | None => [] end))
      raw.

(** A row of the sentiment aggregate ([count], and [count ... FILTER]
    per sentiment). *)
Record SentimentAgg := mkSentimentAgg {
  sa_total : Z;
  sa_positive : Z;
  sa_negative : Z;
  sa_neutral : Z
}.

Inductive Overall := OverallPositive | OverallNegative | OverallNeutral | OverallMixed.

Record SentimentSummary := mkSentimentSummary {
  ss_total : Z;
  ss_overall : Overall;
  ss_positive : Z;
  ss_negative : Z;
  ss_neutral : Z
}.

(** The sentiment summary of the detail route; [agg] is [sentimentAgg],
    [rnd (100 * n) total] is [Math.round((n / total) * 100)]. *)
Definition sentiment_summary (rnd : Z -> Z -> Z) (agg : list SentimentAgg) : SentimentSummary :=
  let total := match agg with a :: _ => sa_total a | [] => 0 end in
  let pos_n := match agg with a :: _ => sa_positive a | [] => 0 end in
  let neg_n := match agg with a :: _ => sa_negative a | [] => 0 end in
  let pos := if 0 <? total then rnd (100 * pos_n) total else 0 in
  let neg := if 0 <? total then rnd (100 * neg_n) total else 0 in
  let neu := if 0 <? total then 100 - pos - neg else 0 in
  let overall :=
    if 60 <=? pos then OverallPositive
    else if 40 <=? neg then OverallNegative
    else if total =? 0 then OverallNeutral
    else OverallMixed in
  mkSentimentSummary total overall pos neg neu.

(** ** The dish detail route: [dishRoutes] *)

(** A row of [dishes]. *)
Record DishRecord := mkDishRecord {
  dk_name : string;
  dk_slug : string;
  dk_canonical : option string;
  dk_category : option string
}.

(** A row of [food_scores JOIN restaurants] (score in hundredths). *)
Record DishRestaurantRow := mkDishRestaurantRow {
  drs_name : string;
  drs_slug : string;
  drs_district : option string;
  drs_score : Z;
  drs_reviews : Z
}.

Record DishStats := mkDishStats {
  ds_avg : option Z;
  ds_max : option Z;
  ds_min : option Z;
  ds_total_reviews : Z
}.

Record DishSentiment := mkDishSentiment {
  dsn_positive : Z; dsn_negative : Z; dsn_neutral : Z; dsn_total : Z }.

Record DishDetailResponse := mkDishDetailResponse {
  dd_dish : DishRecord;
  dd_restaurants : list DishRestaurantRow;
  dd_stats : DishStats;
  dd_sentiment : DishSentiment
}.

Inductive DishReply :=
| DishNotFound (msg : string)
| DishOk (r : DishDetailResponse).

(** The three queries of the route. *)
Inductive DishCall :=
| CDishBySlug (slug : string)            (* dishes WHERE slug = s LIMIT 1 *)
| CDishRestaurants (name : string)       (* food_scores JOIN restaurants, active, score DESC *)
| CDishSentiment (name : string).        (* food_mentions aggregate *)

Record DishBackend := mkDishBackend {
  db_dish : string -> result (list DishRecord);
  db_dish_restaurants : string -> result (list DishRestaurantRow);
  db_dish_sentiment : string -> result (list SentimentAgg)
}.

(** [Math.max(...scores)] / [Math.min(...scores)] on a non-empty array. *)
Definition list_max (x : Z) (l : list Z) : Z := fold_left Z.max l x.
Definition list_min (x : Z) (l : list Z) : Z := fold_left Z.min l x.

(** [stats]; [rnd] as in [rounds_quotient] ([Math.round(mean * 100)], in
    hundredths). *)
Definition dish_stats (rnd : Z -> Z -> Z) (rows : list DishRestaurantRow) : DishStats :=
  let scores := map drs_score rows in
  let total_reviews := fold_left (fun sum r => sum + drs_reviews r) rows 0 in
  match scores with
  | [] => mkDishStats None None None total_reviews
  | x :: l =>
      mkDishStats (Some (rnd (fold_left Z.add scores 0) (Z.of_nat (List.length scores))))
        (Some (list_max x l)) (Some (list_min x l)) total_reviews
  end.

Definition dish_sentiment (agg : list SentimentAgg) : DishSentiment :=
  match agg with
  | a :: _ => mkDishSentiment (sa_positive a) (sa_negative a) (sa_neutral a) (sa_total a)
  | [] => mkDishSentiment 0 0 0 0
  end.

(** The handler: the calls it issues and its reply (a rejected query is a
    thrown error). *)
Definition dish_handler (rnd : Z -> Z -> Z) (be : DishBackend) (slug : string) :
  list DishCall * result DishReply :=
  match db_dish be slug with
  | Throw e => ([CDishBySlug slug], Throw e)
  | Ret [] => ([CDishBySlug slug], Ret (DishNotFound ("Yemek bulunamadi: " ++ slug)%string))
  | Ret (dish :: _) =>
      let name := match dk_canonical dish with Some c => c | None => dk_name dish end in
      let calls := [CDishBySlug slug; CDishRestaurants name; CDishSentiment name] in
      match db_dish_restaurants be name, db_dish_sentiment be name with
      | Ret rs, Ret agg =>
          (calls, Ret (DishOk (mkDishDetailResponse dish rs (dish_stats rnd rs)
                                 (dish_sentiment agg))))
      | Throw e, _ => (calls, Throw e)
      | _, Throw e => (calls, Throw e)
      end
  end.

(** The scored rows of one restaurant in [food_scores]. *)
Definition scored_dishes_of (s : Snapshot) (v : Z) : list DishRow :=
  filter (fun d => (d_restaurant d =? v) &&
                   match d_score d with Some _ => true | None => false end)
    (food_scores s).

(** * Decoders and finite checks used by the proofs *)

(** The value of a lowercase hex digit. *)
Fixpoint index_of (c : ascii) (l : list ascii) (i : nat) : nat :=
  match l with
  | [] => 0
  | x :: l' => if ascii_dec x c then i else index_of c l' (S i)
  end.

Definition hex_val (c : ascii) : nat := index_of c (list_ascii_of_string "0123456789abcdef") 0.

(** Reads back one byte of [hex]. *)
Definition unhex_byte (s : jstr) : option Byte.byte :=
  match s with
  | [c1; c2] => Byte.of_nat (16 * hex_val c1 + hex_val c2)
  | _ => None
  end.

Definition all_ascii : list ascii := map ascii_of_nat (seq 0 256).

Fixpoint is_prefix (a b : jstr) : bool :=
  match a, b with
  | [], _ => true
  | x :: a', y :: b' => if ascii_dec x y then is_prefix a' b' else false
  | _ :: _, [] => false
  end.

(** No escape sequence of [QuoteJSONString] is a prefix of another one. *)
Definition escape_prefix_free : bool :=
  forallb (fun c1 => forallb (fun c2 =>
    implb (is_prefix (escape_char c1) (escape_char c2))
          (if ascii_dec c1 c2 then true else false)) all_ascii) all_ascii.

(** Every escape sequence is non-empty and does not start with a quote. *)
Definition escape_heads_ok : bool :=
  forallb (fun c => match escape_char c with
                    | x :: _ => if ascii_dec x quote_char then false else true
                    | [] => false
                    end) all_ascii.

(** The characters [String(n)] writes for an integer. *)
Definition num_char (c : ascii) : bool :=
  existsb (fun d => if ascii_dec c d then true else false) (list_ascii_of_string "-0123456789").

(** A suffix that starts with a character [String(n)] never writes. *)
Definition delim (t : jstr) : Prop :=
  match t with x :: _ => num_char x = false | [] => False end.

(** The value stored under a key of an entry list ([obj[k]]). *)
Fixpoint lookup_entry (k : jstr) (l : list entry) : option JsVal :=
  match l with
  | [] => None
  | (k', v) :: l' => if list_eq_dec ascii_dec k k' then Some v else lookup_entry k l'
  end.

(** No key occurs twice. *)
Fixpoint nodup_keys (l : list jstr) : bool :=
  match l with
  | [] => true
  | k :: l' => negb (existsb (jstr_eqb k) l') && nodup_keys l'
  end.

(** Every key is a key of the search schema. *)
Definition schema_keys_only (l : list entry) : bool :=
  forallb (fun e => existsb (jstr_eqb (fst e)) search_schema_keys) l.

(** The stored keys of the three routes: a search key of a request that
    passes the coordinate check, a detail key, or an autocomplete key. *)
Definition store_keys_ok (md5 : jstr -> list Byte.byte) (st : Store) : Prop :=
  forall k v, st k = Some v ->
    (exists r, (is_distance (sort_by r) && (is_none (lat r) || is_none (lng r)))%bool = false /\
               k = search_key md5 r) \/
    (exists slug, k = restaurant_key slug) \/
    (exists qq, k = auto_key qq).

Definition of_restaurant (v : Z) (d : DishRow) : bool := d_restaurant d =? v.

Definition entry_lt (a b : entry) : Prop := cu_lt (render a) (render b) = true.

Definition dish_desc (a b : DishRow) : Prop := desc_nulls_first (d_score a) (d_score b) = true.

(** * Scenarios used by the witnesses and counterexamples *)

(** A Postgres that breaks ties by the order the rows are stored in:
    insertion sort under the [ORDER BY] relation. *)
Fixpoint insert_by {A} (le : A -> A -> bool) (x : A) (l : list A) : list A :=
  match l with
  | [] => [x]
  | y :: l' => if le x y then x :: l else y :: insert_by le x l'
  end.

Fixpoint sort_by_le {A} (le : A -> A -> bool) (l : list A) : list A :=
  match l with
  | [] => []
  | x :: l' => insert_by le x (sort_by_le le l')
  end.

Definition ref_backend (E : Engine) (s : Snapshot)
  (get : jstr -> result (option Stored)) (set : jstr -> Stored -> Z -> result unit) : Backend :=
  mkBackend get set
    (fun pq => Ret (map (page_row E pq)
       (firstn (Z.to_nat (pq_limit pq)) (skipn (Z.to_nat (pq_offset pq))
          (sort_by_le (order_le E (pq_order pq))
             (filter (eval_where E (pq_where pq)) (venues s)))))))
    (fun cq => Ret (Z.of_nat (List.length (filter (eval_where E (cq_where cq)) (venues s)))))
    (fun dq => Ret (sort_by_le (fun a b => desc_nulls_first (d_score a) (d_score b))
       (filter (dish_selected dq) (food_scores s))))
    (fun dq => Ret (firstn 1 (filter (detail_selected dq) (venues s))))
    (fun aq => Ret (firstn (Z.to_nat (arq_limit aq))
       (sort_by_le (auto_rest_le E aq) (filter (auto_rest_selected E aq) (venues s)))))
    (fun aq => Ret (map (fun d => (d, 0)) (firstn (Z.to_nat (adq_limit aq))
       (sort_by_le (fun a b => dish_similarity E aq b <=? dish_similarity E aq a)
          (filter (auto_dish_selected E aq) (dish_table s)))))).

(** A digest that ignores its input: every two payloads collide. *)
Definition md5_zero : jstr -> list Byte.byte := fun _ => repeat Byte.x00 16.

(** Name similarity 0.6 when the query is a prefix of the name, else 0;
    distance as the L1 distance of the coordinates. *)
Definition engine0 : Engine :=
  mkEngine (fun _ _ => false)
    (fun name qq => if String.prefix qq name then 600 else 0)
    (fun a b => Z.abs (fst a - fst b) + Z.abs (snd a - snd b))
    (fun x => x)
    (fun _ _ => false).

Definition venue_ali : VenueRow :=
  mkVenue 1 "Kebapci Ali" "kebapci-ali" "Moda Cad. 1" "Kadikoy" ["kebap"%string] (Some 2)
    (Some 420) 12 true 100 (Some (29, 41)).

Definition venue_veli : VenueRow :=
  mkVenue 2 "Kebapci Veli" "kebapci-veli" "Moda Cad. 1" "Kadikoy" ["kebap"%string] (Some 2)
    (Some 480) 30 true 100 (Some (29, 41)).

Definition dishes0 : list DishRow :=
  [mkDish 1 "Adana" (Some 450) 8; mkDish 1 "Urfa" (Some 400) 5;
   mkDish 2 "Beyti" (Some 430) 9; mkDish 1 "Ayran" None 0;
   mkDish 1 "Lahmacun" (Some 470) 11; mkDish 1 "Pide" (Some 300) 2].

Definition dish_table0 : list DishEntry :=
  [mkDishEntry 10 "Adana Kebap" "adana-kebap" (Some "Kebapci Adana"%string) (Some "kebap"%string);
   mkDishEntry 11 "Lahmacun" "lahmacun" None (Some "pide_lahmacun"%string)].

Definition snapshot0 : Snapshot := mkSnapshot [venue_ali; venue_veli] dishes0 dish_table0.

(** The same tables after [kebapci-ali] has been deactivated. *)
Definition snapshot_closed : Snapshot :=
  mkSnapshot [{| v_id := 1; v_name := "Kebapci Ali"; v_slug := "kebapci-ali";
                 v_address := "Moda Cad. 1"; v_district := "Kadikoy"; v_cuisine := ["kebap"%string];
                 v_price := Some 2; v_score := Some 420; v_reviews := 12;
                 v_active := false; v_created := 100; v_location := Some (29, 41) |};
              venue_veli] dishes0 dish_table0.

Definition redis_up_get : jstr -> result (option Stored) := fun _ => Ret None.
Definition redis_up_set : jstr -> Stored -> Z -> result unit := fun _ _ _ => Ret tt.
Definition redis_down_get : jstr -> result (option Stored) := fun _ => Throw RedisError.
Definition redis_down_set : jstr -> Stored -> Z -> result unit := fun _ _ _ => Throw RedisError.

Definition backend0 : Backend := ref_backend engine0 snapshot0 redis_up_get redis_up_set.
Definition backend_down : Backend := ref_backend engine0 snapshot0 redis_down_get redis_down_set.

Definition query_score : SearchQuery :=
  mkSearch "Kebapci" None None None None SortScore 1 20 None None.

Definition query_distance : SearchQuery :=
  mkSearch "Kebapci" None None None None SortDistance 1 20 (Some 41) (Some 29).

Definition query_newest : SearchQuery :=
  mkSearch "Kebapci" None None None None SortNewest 1 20 None None.

(** [sort_by=distance] without [lng]. *)
Definition query_no_lng : SearchQuery :=
  mkSearch "Kebapci" None None None None SortDistance 1 20 (Some 41) None.

(** The response of a search reply computed from storage. *)
Definition response_of (rep : result SearchReply) : SearchResponse :=
  match rep with
  | Ret (ROk resp) => resp
  | _ => build_response query_score [] 0 []
  end.

Definition response_score : SearchResponse :=
  response_of (snd (run (search_handler md5_zero query_score) backend0)).

Definition response_distance : SearchResponse :=
  response_of (snd (run (search_handler md5_zero query_distance) backend0)).

Definition response_newest : SearchResponse :=
  response_of (snd (run (search_handler md5_zero query_newest) backend0)).

(** [?q=Kebapci&sort_by=distance&lat=41]: no [lng]. *)
Definition raw_no_lng : RawSearch :=
  mkRawSearch (Some (js "Kebapci")) None None None None (Some (js "distance")) None None
    (Some (Num 41)) None.

(** [?q=%20%20%20]: three spaces. *)
Definition raw_blank : RawSearch :=
  mkRawSearch (Some (js "   ")) None None None None None None None None None.

(** [?q=k&page=0]: two schema errors. *)
Definition raw_bad : RawSearch :=
  mkRawSearch (Some (js "k")) None None None None None (Some (Num 0)) None None None.

(** The issues of all fields, in the schema's order. *)
Definition all_issues (raw : RawSearch) : list string :=
  issue (check_q (raw_q raw)) ++ issue (check_district (raw_district raw)) ++
  issue (check_cuisine (raw_cuisine raw)) ++
  issue (check_num "price_range" 1 4 (raw_price_range raw)) ++
  issue (check_num "min_score" 1 10 (raw_min_score raw)) ++
  issue (check_sort (raw_sort_by raw)) ++ issue (check_page (raw_page raw)) ++
  issue (check_limit (raw_limit raw)) ++ issue (check_num "lat" (-90) 90 (raw_lat raw)) ++
  issue (check_num "lng" (-180) 180 (raw_lng raw)).

(** Redis after one detail request for [kebapci-ali] while it was active. *)
Definition store_ali : Store :=
  apply_sets true
    (fst (run (detail_handler "kebapci-ali") (with_redis backend0 empty_store true true)))
    empty_store.


Definition backend_closed : Backend :=
  ref_backend engine0 snapshot_closed redis_up_get redis_up_set.

(** Redis after one autocomplete request for [Kebapci] on [snapshot0]. *)
Definition store_auto : Store :=
  apply_sets true
    (fst (run (autocomplete_handler (js "Kebapci")) (with_redis backend0 empty_store true true)))
    empty_store.

Definition backend_closed_auto : Backend :=
  with_redis backend_closed store_auto true true.

Definition auto_response0 : AutoResponse :=
  match snd (run (autocomplete_handler (js "Kebapci")) backend0) with
  | Ret (AOk resp) => resp
  | _ => mkAutoResponse [] []
  end.

(** The second item of [response_score]: [kebapci-ali]. *)
Definition item_ali : SearchItem := nth 1 (sr_data response_score) (item_of [] (page_row engine0 (mkPageQuery [] OScore None 0 0) venue_ali)).

(** ** Fixtures and helpers for the remaining routes *)

(** [mentionsByReview.get(r.id) ?? []] *)
Definition mentions_or_empty (o : option (list MentionedDish)) : list MentionedDish :=
  match o with Some l => l | None => [] end.

(** A string that is empty or starts with a character [trim] keeps. *)
Definition head_ok (l : jstr) : Prop :=
  match l with c :: _ => js_space c = false | [] => True end.

(** [adana-kebap], listed under its canonical name [Adana Kebap]. *)
Definition dish_adana : DishRecord :=
  mkDishRecord "Adana" "adana-kebap" (Some "Adana Kebap"%string) (Some "kebap"%string).

Definition dish_backend0 : DishBackend :=
  mkDishBackend
    (fun s => if String.eqb s "adana-kebap" then Ret [dish_adana] else Ret [])
    (fun n => if String.eqb n "Adana Kebap"
              then Ret [mkDishRestaurantRow "Kebapci Ali" "kebapci-ali" (Some "Kadikoy"%string) 450 8;
                        mkDishRestaurantRow "Kebapci Veli" "kebapci-veli" None 430 9]
              else Ret [])
    (fun _ => Ret [mkSentimentAgg 10 6 3 1]).

Definition dish_response0 : DishDetailResponse :=
  match snd (dish_handler round_half_up dish_backend0 "adana-kebap") with
  | Ret (DishOk r) => r
  | _ => mkDishDetailResponse dish_adana [] (dish_stats round_half_up []) (dish_sentiment [])
  end.

(** A [SCAN] that answers [search:ab] and cursor [0] in one round. *)
Definition scan_once (st : Store) (cursor pattern : jstr) : result (jstr * list jstr) :=
  Ret (js "0", [js "search:ab"]).

(** [?q=kebap&district=&cuisine=kebap&price_range=2] *)
Definition raw_empty_district : RawSearch :=
  mkRawSearch (Some (js "kebap")) (Some []) (Some (js "kebap")) (Some (Num 2)) None None None None
    None None.

(** * Proofs *)

Ltac destruct_calls be :=
  repeat match goal with
  | |- context [redis_get be ?k] => destruct (redis_get be k) as [?|[?|]]
  | |- context [redis_set be ?k ?v ?t] => destruct (redis_set be k v t)
  | |- context [db_page be ?x] => destruct (db_page be x)
  | |- context [db_count be ?x] => destruct (db_count be x)
  | |- context [db_dishes be ?x] => destruct (db_dishes be x)
  | |- context [db_detail be ?x] => destruct (db_detail be x)
  | |- context [db_auto_rest be ?x] => destruct (db_auto_rest be x)
  | |- context [db_auto_dish be ?x] => destruct (db_auto_dish be x)
  end.

Ltac unfold_monad :=
  unfold run, bind, cacheGet, cacheSet, catch_all, call, ret, storage, all2 in *.

(** The run of [cacheGet]: one [ECacheGet] and, whatever Redis does, a
    value. *)
Lemma cacheGet_run (key : jstr) (be : Backend) (tr : list event) :
  cacheGet key be tr =
  (tr ++ [ECacheGet key],
   Ret match redis_get be key with
       | Ret (Some s) => json_parse s
       | _ => None
       end).
Proof.
  unfold_monad. cbn. destruct (redis_get be key) as [e|[v|]]; cbn; try reflexivity.
  destruct (json_parse v); reflexivity.
Qed.

Lemma cacheSet_run (key : jstr) (v : Stored) (ttl : Z) (be : Backend) (tr : list event) :
  cacheSet key v ttl be tr = (tr ++ [ECacheSet key v ttl], Ret tt).
Proof.
  unfold_monad. cbn. destruct (redis_set be key v ttl) as [e|[]]; reflexivity.
Qed.

(** ** C1: cache errors never reach the caller *)

(** Claim C1: [cacheGet] never throws, and reads a Redis error or bytes
    [JSON.parse] rejects as a miss; [cacheSet] never throws; and when Redis
    throws on every read, the search route computes exactly what it
    computes on a cache miss (same calls, same reply). *)
Theorem cache_errors_absorbed :
  (forall be key tr, exists v, snd (cacheGet key be tr) = Ret v) /\
  (forall be key tr e, redis_get be key = Throw e ->
     cacheGet key be tr = (tr ++ [ECacheGet key], Ret None)) /\
  (forall be key tr b, redis_get be key = Ret (Some (SGarbage b)) ->
     snd (cacheGet key be tr) = Ret None) /\
  (forall be key v ttl tr, snd (cacheSet key v ttl be tr) = Ret tt) /\
  (forall md5 r be, (forall k, exists e, redis_get be k = Throw e) ->
     run (search_handler md5 r) be =
     run (search_handler md5 r)
       (mkBackend (fun _ => Ret None) (redis_set be) (db_page be) (db_count be)
          (db_dishes be) (db_detail be) (db_auto_rest be) (db_auto_dish be))).
Proof.
  split; [|split; [|split; [|split]]].
  - intros be key tr. rewrite cacheGet_run. eexists; reflexivity.
  - intros be key tr e He. rewrite cacheGet_run, He. reflexivity.
  - intros be key tr b Hb. rewrite cacheGet_run, Hb. reflexivity.
  - intros be key v ttl tr. rewrite cacheSet_run. reflexivity.
  - intros md5 r be H.
    destruct (H (search_key md5 r)) as [e He].
    unfold search_handler, fetch_top_dishes. unfold_monad.
    cbn -[search_key]. rewrite He. cbn -[search_key].
    destruct (is_distance (sort_by r) && (is_none (lat r) || is_none (lng r)))%bool;
      [reflexivity|].
    cbn -[search_key]. destruct_calls be; cbn -[search_key]; try reflexivity.
    destruct (map (fun pr : PageRow => v_id (pr_venue pr)) _); cbn -[search_key];
      reflexivity.
Qed.

(** The run of the search handler, split on the cache lookup. *)
Lemma search_handler_run (md5 : jstr -> list Byte.byte) (r : SearchQuery) (be : Backend) :
  run (search_handler md5 r) be =
  match match redis_get be (search_key md5 r) with
        | Ret (Some s) => json_parse s
        | _ => None
        end with
  | Some v => ([ECacheGet (search_key md5 r)], Ret (RHit v))
  | None =>
      if is_distance (sort_by r) && (is_none (lat r) || is_none (lng r)) then
        ([ECacheGet (search_key md5 r)], Ret (RBadRequest distance_error_message))
      else
        (if is_distance (sort_by r) && (is_none (lat r) || is_none (lng r))
         then ret (RBadRequest distance_error_message)
         else
           let offset := (page r - 1) * limit r in
           let wh := conditions r in
           let pq := mkPageQuery wh (order_clause r) (origin r) (limit r) offset in
           let cq := mkCountQuery wh in
           res <- all2 (EStorage (QPage pq)) (fun be => db_page be pq)
                       (EStorage (QCount cq)) (fun be => db_count be cq) ;;
           m <- fetch_top_dishes (map (fun pr => v_id (pr_venue pr)) (fst res)) ;;
           _ <- cacheSet (search_key md5 r) (SSearch (build_response r (fst res) (snd res) m)) 300 ;;
           ret (ROk (build_response r (fst res) (snd res) m)))
          be [ECacheGet (search_key md5 r)]
  end.
Proof.
  unfold run, search_handler. unfold bind at 1. rewrite cacheGet_run. cbn -[search_key].
  destruct (match redis_get be (search_key md5 r) with
            | Ret (Some s) => json_parse s | _ => None end); [reflexivity|].
  destruct (is_distance (sort_by r) && (is_none (lat r) || is_none (lng r)))%bool; reflexivity.
Qed.

Ltac in_trace H :=
  cbn in H; repeat (destruct H as [H|H]; [try discriminate H; injection H as <-|]);
  try contradiction.

(** ** C3: the active-only filter *)

(** Claim C3: for every parsed search query, the predicate list contains
    [is_active = true], and every page query and every count query the
    route sends to Postgres is filtered by exactly that list. *)
Theorem active_filter_in_every_query (md5 : jstr -> list Byte.byte) (r : SearchQuery) (be : Backend) :
  In PActive (conditions r) /\
  (forall pq, In (EStorage (QPage pq)) (fst (run (search_handler md5 r) be)) ->
     pq_where pq = conditions r) /\
  (forall cq, In (EStorage (QCount cq)) (fst (run (search_handler md5 r) be)) ->
     cq_where cq = conditions r).
Proof.
  split; [left; reflexivity|].
  rewrite search_handler_run.
  destruct (match redis_get be (search_key md5 r) with
            | Ret (Some s) => json_parse s | _ => None end).
  { split; intros ? H; in_trace H. }
  destruct (is_distance (sort_by r) && (is_none (lat r) || is_none (lng r)))%bool.
  { split; intros ? H; in_trace H. }
  unfold fetch_top_dishes; unfold_monad; cbn -[search_key conditions].
  destruct_calls be; cbn -[search_key conditions];
    try (split; intros ? H; in_trace H; reflexivity).
  destruct (map (fun pr : PageRow => v_id (pr_venue pr)) _);
    cbn -[search_key conditions]; destruct_calls be; cbn -[search_key conditions];
    split; intros ? H; in_trace H; reflexivity.
Qed.

(** ** C5: top three dishes per restaurant *)

Lemma map_get_set (m : DishMap) (k v : Z) (x : list TopDish) :
  map_get (map_set m k x) v = if v =? k then Some x else map_get m v.
Proof.
  induction m as [|[k' x'] m IH]; cbn.
  - reflexivity.
  - destruct (k =? k') eqn:Hk; cbn.
    + apply Z.eqb_eq in Hk; subst k'. destruct (v =? k); reflexivity.
    + rewrite IH. destruct (v =? k') eqn:Hv, (v =? k) eqn:Hv'; try reflexivity.
      apply Z.eqb_eq in Hv, Hv'. subst. rewrite Z.eqb_refl in Hk. discriminate.
Qed.

Lemma firstn_snoc {A} (n : nat) (l : list A) (x : A) :
  firstn n (l ++ [x]) =
  if Nat.ltb (List.length (firstn n l)) n then firstn n l ++ [x] else firstn n l.
Proof.
  rewrite firstn_app, length_firstn.
  destruct (Nat.ltb_spec (Nat.min n (List.length l)) n) as [H|H].
  - rewrite firstn_all2 by lia.
    replace (n - List.length l)%nat with (S (n - List.length l - 1)) by lia.
    cbn. rewrite firstn_nil. reflexivity.
  - replace (n - List.length l)%nat with 0%nat by lia. cbn. apply app_nil_r.
Qed.

Lemma group_fold_spec (rows : list DishRow) : forall (m : DishMap) (seen : list DishRow),
  (forall v, top_dishes_of m v = firstn 3 (map top_dish (filter (of_restaurant v) seen))) ->
  forall v, top_dishes_of (fold_left group_step rows m) v =
            firstn 3 (map top_dish (filter (of_restaurant v) (seen ++ rows))).
Proof.
  induction rows as [|d rows IH]; intros m seen Hm v.
  - rewrite app_nil_r. apply Hm.
  - cbn. replace (seen ++ d :: rows) with ((seen ++ [d]) ++ rows)
      by (rewrite <- app_assoc; reflexivity).
    apply IH. clear v. intros v.
    rewrite filter_app, map_app.
    change (filter (of_restaurant v) [d]) with (if of_restaurant v d then [d] else []).
    unfold group_step.
    fold (top_dishes_of m (d_restaurant d)).
    rewrite Hm.
    destruct (of_restaurant v d) eqn:Hd.
    + unfold of_restaurant in Hd. apply Z.eqb_eq in Hd. rewrite Hd.
      change (map top_dish [d]) with [top_dish d].
      rewrite firstn_snoc.
      fold (of_restaurant v).
      destruct (Nat.ltb _ 3).
      * unfold top_dishes_of. rewrite map_get_set, Z.eqb_refl. reflexivity.
      * rewrite <- Hd. apply Hm.
    + change (map top_dish (if false then [d] else [])) with (@nil TopDish).
      rewrite app_nil_r.
      unfold of_restaurant in Hd.
      destruct (Nat.ltb _ 3); [|apply Hm].
      unfold top_dishes_of at 1. rewrite map_get_set.
      rewrite Z.eqb_sym, Hd. apply Hm.
Qed.

(** The dishes a restaurant gets are the first three of its rows, in the
    order Postgres returned them. *)
Lemma group_top3_spec (rows : list DishRow) (v : Z) :
  top_dishes_of (group_top3 rows) v =
  map top_dish (firstn 3 (filter (of_restaurant v) rows)).
Proof.
  rewrite <- firstn_map. apply (group_fold_spec rows [] [] (fun _ => eq_refl)).
Qed.

Ltac destruct_calls_eqn be :=
  repeat match goal with
  | |- context [db_page be ?x] => let H := fresh "Hpage" in destruct (db_page be x) eqn:H
  | |- context [db_count be ?x] => let H := fresh "Hcount" in destruct (db_count be x) eqn:H
  | |- context [db_dishes be ?x] => let H := fresh "Hdishes" in destruct (db_dishes be x) eqn:H
  | |- context [db_detail be ?x] => let H := fresh "Hdetail" in destruct (db_detail be x) eqn:H
  | |- context [db_auto_rest be ?x] => let H := fresh "Hrest" in destruct (db_auto_rest be x) eqn:H
  | |- context [db_auto_dish be ?x] => let H := fresh "Hdish" in destruct (db_auto_dish be x) eqn:H
  | |- context [redis_set be ?k ?v ?t] => destruct (redis_set be k v t)
  end.

(** What a [200] reply computed from storage is made of. *)
Lemma search_ok_inv (md5 : jstr -> list Byte.byte) (r : SearchQuery) (be : Backend)
  (resp : SearchResponse) :
  snd (run (search_handler md5 r) be) = Ret (ROk resp) ->
  exists results total m,
    db_page be (mkPageQuery (conditions r) (order_clause r) (origin r) (limit r)
                  ((page r - 1) * limit r)) = Ret results /\
    db_count be (mkCountQuery (conditions r)) = Ret total /\
    resp = build_response r results total m /\
    ((results = [] /\ m = []) \/
     exists rows, db_dishes be (mkDishQuery (map (fun pr => v_id (pr_venue pr)) results))
                  = Ret rows /\ m = group_top3 rows) /\
    (is_distance (sort_by r) && (is_none (lat r) || is_none (lng r)))%bool = false.
Proof.
  rewrite search_handler_run.
  destruct (match redis_get be (search_key md5 r) with
            | Ret (Some s) => json_parse s | _ => None end); [discriminate|].
  destruct (is_distance (sort_by r) && (is_none (lat r) || is_none (lng r)))%bool eqn:Hd;
    [discriminate|].
  unfold fetch_top_dishes; unfold_monad; cbn -[search_key conditions].
  destruct_calls_eqn be; cbn -[search_key conditions]; try discriminate.
  destruct (map (fun pr : PageRow => v_id (pr_venue pr)) _) as [|i ids] eqn:Hids;
    cbn -[search_key conditions]; destruct_calls_eqn be; cbn -[search_key conditions];
    try discriminate; intros H; inversion H; subst resp.
  - exists a, a0, []. do 3 (split; [reflexivity|]). split; [|reflexivity].
    left. split; [|reflexivity]. destruct a; [reflexivity|discriminate].
  - exists a, a0, []. do 3 (split; [reflexivity|]). split; [|reflexivity].
    left. split; [|reflexivity]. destruct a; [reflexivity|discriminate].
  - eexists a, a0, _. do 3 (split; [reflexivity|]). split; [|reflexivity].
    right. eexists. rewrite Hids. split; [eassumption|reflexivity].
  - eexists a, a0, _. do 3 (split; [reflexivity|]). split; [|reflexivity].
    right. eexists. rewrite Hids. split; [eassumption|reflexivity].
Qed.

Lemma filter_perm {A} (f : A -> bool) (l l' : list A) :
  Permutation l l' -> Permutation (filter f l) (filter f l').
Proof.
  induction 1 as [|x l l' _ IH|x y l|l l' l'' _ IH1 _ IH2]; cbn.
  - constructor.
  - destruct (f x); auto.
  - destruct (f x), (f y); auto. apply perm_swap.
  - eapply perm_trans; eauto.
Qed.

Lemma strongly_sorted_filter {A} (R : A -> A -> Prop) (f : A -> bool) (l : list A) :
  StronglySorted R l -> StronglySorted R (filter f l).
Proof.
  induction 1 as [|x l _ IH Hall]; cbn; [constructor|].
  destruct (f x); [|exact IH].
  constructor; [exact IH|].
  rewrite Forall_forall in *. intros y Hy. apply filter_In in Hy. apply Hall, Hy.
Qed.

Lemma strongly_sorted_app {A} (R : A -> A -> Prop) (l1 l2 : list A) :
  StronglySorted R (l1 ++ l2) ->
  StronglySorted R l1 /\ (forall x y, In x l1 -> In y l2 -> R x y).
Proof.
  induction l1 as [|a l1 IH]; cbn; intros H.
  - split; [constructor|contradiction].
  - apply StronglySorted_inv in H as [H Hall]. destruct (IH H) as [H1 H2].
    rewrite Forall_forall in Hall. split.
    + constructor; [exact H1|]. rewrite Forall_forall. intros y Hy.
      apply Hall, in_or_app; auto.
    + intros x y [<-|Hx] Hy; [apply Hall, in_or_app; auto|auto].
Qed.

Lemma desc_nulls_first_trans (a b c : option Z) :
  desc_nulls_first a b = true -> desc_nulls_first b c = true ->
  desc_nulls_first a c = true.
Proof.
  destruct a, b, c; cbn; try easy. rewrite !Z.leb_le. lia.
Qed.

Lemma scored_filter (s : Snapshot) (dq : DishQuery) (v : Z) :
  In v (dq_ids dq) ->
  filter (of_restaurant v) (filter (dish_selected dq) (food_scores s)) =
  scored_dishes_of s v.
Proof.
  intros Hv. unfold scored_dishes_of. induction (food_scores s) as [|d ds IH]; [reflexivity|].
  cbn [filter]. unfold dish_selected, of_restaurant in *.
  destruct (d_restaurant d =? v) eqn:Hd.
  - apply Z.eqb_eq in Hd as Hd'.
    assert (Hex : existsb (Z.eqb (d_restaurant d)) (dq_ids dq) = true).
    { apply existsb_exists. exists v. split; [exact Hv|]. apply Z.eqb_eq; exact Hd'. }
    rewrite Hex. cbn. destruct (d_score d); cbn; [rewrite Hd, IH; reflexivity|exact IH].
  - cbn. destruct (existsb _ _ && _); cbn; [rewrite Hd|]; exact IH.
Qed.

Lemma dish_sorted_strongly (l : list DishRow) :
  Sorted dish_desc l -> StronglySorted dish_desc l.
Proof.
  apply Sorted_StronglySorted. intros a b c. apply desc_nulls_first_trans.
Qed.

(** Claim C5: for every venue on a returned page, [topDishes] is the list
    of the first three rows of that venue in the storage answer of the dish
    query, an answer sorted by score descending; those three rows are the
    venue's best scored dishes (they are in descending order and every
    other scored dish of the venue scores at most as much), there are
    [min 3 n] of them where [n] is the number of scored dishes of the
    venue, and none has a null score. *)
Theorem top_dishes_best_three (E : Engine) (s : Snapshot)
  (md5 : jstr -> list Byte.byte) (r : SearchQuery) (be : Backend) (resp : SearchResponse) :
  storage_faithful E s be ->
  snd (run (search_handler md5 r) be) = Ret (ROk resp) ->
  forall it, In it (sr_data resp) ->
  exists dq res taken rest,
    db_dishes be dq = Ret res /\ dish_admissible s dq res /\
    taken = firstn 3 (filter (of_restaurant (it_id it)) res) /\
    it_top it = map top_dish taken /\
    Permutation (taken ++ rest) (scored_dishes_of s (it_id it)) /\
    Sorted dish_desc taken /\
    (forall a b, In a taken -> In b rest -> dish_desc a b) /\
    List.length taken = Nat.min 3 (List.length (scored_dishes_of s (it_id it))) /\
    Forall (fun d => d_score d <> None) taken.
Proof.
  intros Hf Hok it Hit.
  destruct (search_ok_inv md5 r be resp Hok)
    as (results & total & m & _ & _ & -> & Hm & _).
  cbn in Hit. apply in_map_iff in Hit as (pr & <- & Hpr).
  destruct Hm as [[-> _]|(rows & Hrows & ->)]; [contradiction|].
  destruct Hf as (_ & _ & Hdish & _).
  pose proof (Hdish _ _ Hrows) as Hadm.
  set (id := v_id (pr_venue pr)).
  set (F := filter (of_restaurant id) rows).
  assert (Hin : In id (dq_ids (mkDishQuery (map (fun pr => v_id (pr_venue pr)) results)))).
  { cbn. apply in_map_iff. exists pr. split; [reflexivity|exact Hpr]. }
  destruct Hadm as [Hperm Hsorted].
  assert (HF : Permutation F (scored_dishes_of s id)).
  { rewrite <- (scored_filter s _ id Hin). apply filter_perm, Hperm. }
  assert (HSF : StronglySorted dish_desc (firstn 3 F ++ skipn 3 F)).
  { rewrite firstn_skipn. apply strongly_sorted_filter, dish_sorted_strongly, Hsorted. }
  apply strongly_sorted_app in HSF as [HS1 HS2].
  exists (mkDishQuery (map (fun pr => v_id (pr_venue pr)) results)), rows,
    (firstn 3 F), (skipn 3 F).
  split; [exact Hrows|]. split; [split; assumption|]. split; [reflexivity|].
  split; [cbn; apply group_top3_spec|].
  split; [rewrite firstn_skipn; exact HF|].
  split; [apply StronglySorted_Sorted, HS1|].
  split; [exact HS2|].
  split; [rewrite length_firstn, (Permutation_length HF); reflexivity|].
  rewrite Forall_forall. intros d Hd.
  assert (HdF : In d F).
  { rewrite <- (firstn_skipn 3 F). apply in_or_app; left; exact Hd. }
  apply filter_In in HdF as [Hdr _].
  apply (Permutation_in _ Hperm), filter_In in Hdr as [_ Hsel].
  unfold dish_selected in Hsel. apply andb_prop in Hsel as [_ Hsc].
  destruct (d_score d); [discriminate|discriminate Hsc].
Qed.

Section SortByLe.

Context {A : Type} (le : A -> A -> bool).
Hypothesis le_total : forall a b, le a b = false -> le b a = true.

Lemma insert_by_perm (x : A) (l : list A) : Permutation (insert_by le x l) (x :: l).
Proof.
  induction l as [|y l IH]; cbn; [reflexivity|].
  destruct (le x y); [reflexivity|].
  rewrite IH. apply perm_swap.
Qed.

Lemma sort_by_le_perm (l : list A) : Permutation (sort_by_le le l) l.
Proof.
  induction l as [|x l IH]; cbn; [reflexivity|].
  rewrite insert_by_perm, IH. reflexivity.
Qed.

Lemma insert_by_sorted (x : A) (l : list A) :
  Sorted (fun a b => le a b = true) l -> Sorted (fun a b => le a b = true) (insert_by le x l).
Proof.
  induction 1 as [|y l Hs IH Hhd]; cbn; [repeat constructor|].
  destruct (le x y) eqn:Hxy; [constructor; [constructor; assumption|constructor; exact Hxy]|].
  constructor; [exact IH|].
  destruct l as [|z l]; cbn; [constructor; apply le_total, Hxy|].
  destruct (le x z); constructor; [apply le_total, Hxy|inversion Hhd; assumption].
Qed.

Lemma sort_by_le_sorted (l : list A) : Sorted (fun a b => le a b = true) (sort_by_le le l).
Proof.
  induction l as [|x l IH]; cbn; [constructor|]. apply insert_by_sorted, IH.
Qed.

End SortByLe.

Lemma asc_nulls_last_total a b : asc_nulls_last a b = false -> asc_nulls_last b a = true.
Proof. destruct a, b; cbn; try easy. rewrite !Z.leb_le, Z.leb_nle. lia. Qed.

Lemma desc_nulls_last_total a b : desc_nulls_last a b = false -> desc_nulls_last b a = true.
Proof. destruct a, b; cbn; try easy. rewrite !Z.leb_le, Z.leb_nle. lia. Qed.

Lemma desc_nulls_first_total a b : desc_nulls_first a b = false -> desc_nulls_first b a = true.
Proof. destruct a, b; cbn; try easy. rewrite !Z.leb_le, Z.leb_nle. lia. Qed.

Lemma order_le_total E o a b : order_le E o a b = false -> order_le E o b a = true.
Proof.
  destruct o; cbn.
  - apply asc_nulls_last_total.
  - rewrite Z.leb_le, Z.leb_nle. lia.
  - apply desc_nulls_last_total.
Qed.

Lemma auto_rest_le_total E aq a b : auto_rest_le E aq a b = false -> auto_rest_le E aq b a = true.
Proof.
  unfold auto_rest_le.
  set (sa := similarity E (v_name a) _). set (sb := similarity E (v_name b) _).
  intros H. apply orb_false_iff in H as [H1 H2]. apply Z.ltb_ge in H1.
  destruct (Z.eq_dec sa sb) as [Heq|Hne].
  - rewrite Heq, Z.eqb_refl in H2. cbn in H2. rewrite Heq, Z.eqb_refl, Z.ltb_irrefl.
    cbn. apply desc_nulls_first_total, H2.
  - apply orb_true_iff. left. apply Z.ltb_lt. lia.
Qed.

Lemma ref_backend_faithful E s get set : storage_faithful E s (ref_backend E s get set).
Proof.
  unfold storage_faithful. split; [|split; [|split; [|split; [|split]]]];
    intros qy res Hres; cbn in Hres; injection Hres as <-.
  - eexists. split; [apply sort_by_le_perm|]. split; [|reflexivity].
    apply sort_by_le_sorted, order_le_total.
  - reflexivity.
  - split; [apply sort_by_le_perm|apply sort_by_le_sorted; intros a b; apply desc_nulls_first_total].
  - eexists. split; [reflexivity|reflexivity].
  - eexists. split; [apply sort_by_le_perm|]. split; [|reflexivity].
    apply sort_by_le_sorted, auto_rest_le_total.
  - eexists. split; [apply sort_by_le_perm|]. split.
    + apply sort_by_le_sorted. intros a b. rewrite Z.leb_nle, Z.leb_le. lia.
    + rewrite map_map. cbn. apply map_id.
Qed.

Lemma cache_errors_absorbed_witness :
  cacheGet (js "restaurant:kebapci-ali") backend_down [] =
    ([ECacheGet (js "restaurant:kebapci-ali")], Ret None) /\
  run (search_handler md5_zero query_score) backend_down =
  run (search_handler md5_zero query_score)
    (mkBackend (fun _ => Ret None) (redis_set backend_down) (db_page backend_down)
       (db_count backend_down) (db_dishes backend_down) (db_detail backend_down)
       (db_auto_rest backend_down) (db_auto_dish backend_down)).
Proof.
  split.
  - apply (proj1 (proj2 cache_errors_absorbed) backend_down _ [] RedisError). reflexivity.
  - apply (proj2 (proj2 (proj2 (proj2 cache_errors_absorbed))) md5_zero query_score backend_down).
    intros k. exists RedisError. reflexivity.
Defined.

Lemma active_filter_in_every_query_witness :
  In (EStorage (QPage (mkPageQuery (conditions query_distance) (order_clause query_distance)
                         (origin query_distance) 20 0)))
     (fst (run (search_handler md5_zero query_distance) backend0)) /\
  pq_where (mkPageQuery (conditions query_distance) (order_clause query_distance)
              (origin query_distance) 20 0) = conditions query_distance.
Proof.
  split; [vm_compute; auto|].
  apply (proj1 (proj2 (active_filter_in_every_query md5_zero query_distance backend0))).
  vm_compute. auto.
Defined.

Lemma top_dishes_best_three_witness :
  storage_faithful engine0 snapshot0 backend0 /\
  snd (run (search_handler md5_zero query_score) backend0) = Ret (ROk response_score) /\
  In item_ali (sr_data response_score) /\
  exists dq res taken rest,
    db_dishes backend0 dq = Ret res /\ dish_admissible snapshot0 dq res /\
    taken = firstn 3 (filter (of_restaurant (it_id item_ali)) res) /\
    it_top item_ali = map top_dish taken /\
    Permutation (taken ++ rest) (scored_dishes_of snapshot0 (it_id item_ali)) /\
    Sorted dish_desc taken /\
    (forall a b, In a taken -> In b rest -> dish_desc a b) /\
    List.length taken = Nat.min 3 (List.length (scored_dishes_of snapshot0 (it_id item_ali))) /\
    Forall (fun d => d_score d <> None) taken.
Proof.
  split; [apply ref_backend_faithful|].
  split; [vm_compute; reflexivity|].
  split; [vm_compute; auto|].
  apply (top_dishes_best_three engine0 snapshot0 md5_zero query_score backend0 response_score).
  - apply ref_backend_faithful.
  - vm_compute. reflexivity.
  - vm_compute. auto.
Defined.

(** ** C6: the ranking keys of distance and recency sorts *)

Lemma sorted_skipn {A} (R : A -> A -> Prop) n (l : list A) : Sorted R l -> Sorted R (skipn n l).
Proof.
  revert l; induction n as [|n IH]; intros [|x l] H; cbn; auto.
  apply IH. apply Sorted_inv in H as [H _]. exact H.
Qed.

Lemma sorted_firstn {A} (R : A -> A -> Prop) n (l : list A) : Sorted R l -> Sorted R (firstn n l).
Proof.
  revert l; induction n as [|n IH]; intros [|x l] H; cbn; auto.
  apply Sorted_inv in H as [H Hhd]. constructor; [apply IH, H|].
  destruct n, l; cbn; constructor. inversion Hhd; assumption.
Qed.

Lemma sorted_map {A B} (f : A -> B) (R : B -> B -> Prop) (l : list A) :
  Sorted (fun a b => R (f a) (f b)) l -> Sorted R (map f l).
Proof.
  induction 1 as [|x l _ IH Hhd]; cbn; constructor; [exact IH|].
  destruct Hhd; cbn; constructor; assumption.
Qed.

(** Claim C6 (as the code has it): a page of search results lists its rows
    sorted by the one key of the sort: distance ascending for [distance]
    (NULL last), [created_at] descending for [newest], overall score
    descending (NULL last) for [score]. No second key is given to Postgres,
    so rows equal on the key come in whatever order the engine returns. *)
Theorem page_sorted_by_primary_key (E : Engine) (s : Snapshot)
  (md5 : jstr -> list Byte.byte) (r : SearchQuery) (be : Backend) (resp : SearchResponse) :
  storage_faithful E s be ->
  snd (run (search_handler md5 r) be) = Ret (ROk resp) ->
  exists results m,
    sr_data resp = map (item_of m) results /\
    Sorted (fun a b => order_le E (order_clause r) (pr_venue a) (pr_venue b) = true) results /\
    order_clause r = match sort_by r with
                     | SortDistance => ODistance (lng r) (lat r)
                     | SortNewest => ONewest
                     | SortScore => OScore
                     end.
Proof.
  intros (Hpage & _) Hok.
  destruct (search_ok_inv md5 r be resp Hok) as (results & total & m & Hres & _ & -> & _).
  exists results, m. split; [reflexivity|]. split; [|reflexivity].
  destruct (Hpage _ _ Hres) as (l & _ & Hsorted & ->). cbn.
  apply sorted_map. cbn. apply sorted_firstn, sorted_skipn, Hsorted.
Qed.

Lemma page_sorted_by_primary_key_witness :
  storage_faithful engine0 snapshot0 backend0 /\
  snd (run (search_handler md5_zero query_distance) backend0) = Ret (ROk response_distance) /\
  exists results m,
    sr_data response_distance = map (item_of m) results /\
    Sorted (fun a b => order_le engine0 (order_clause query_distance) (pr_venue a) (pr_venue b) = true) results /\
    order_clause query_distance = ODistance (lng query_distance) (lat query_distance).
Proof.
  split; [apply ref_backend_faithful|]. split; [vm_compute; reflexivity|].
  apply (page_sorted_by_primary_key engine0 snapshot0 md5_zero query_distance backend0
           response_distance); [apply ref_backend_faithful|vm_compute; reflexivity].
Defined.

(** Counterexample to C6 as stated: on a faithful Postgres, two active
    venues at the same distance (and created at the same time) come back
    with the lower-scored one first, for the [distance] and for the
    [newest] sort, although the spec's ranking puts the higher score first. *)
Lemma ties_not_broken_by_score :
  storage_faithful engine0 snapshot0 backend0 /\
  snd (run (search_handler md5_zero query_distance) backend0) = Ret (ROk response_distance) /\
  map (fun it => (it_id it, it_distance it, it_score it)) (sr_data response_distance) =
    [(1, Some (to_km 0), Some 420); (2, Some (to_km 0), Some 480)] /\
  spec_ranking_le engine0 (order_clause query_distance) venue_ali venue_veli = false /\
  snd (run (search_handler md5_zero query_newest) backend0) = Ret (ROk response_newest) /\
  map (fun it => (it_id it, it_score it)) (sr_data response_newest) =
    [(1, Some 420); (2, Some 480)] /\
  v_created venue_ali = v_created venue_veli /\
  spec_ranking_le engine0 (order_clause query_newest) venue_ali venue_veli = false.
Proof.
  split; [apply ref_backend_faithful|].
  repeat split; vm_compute; reflexivity.
Qed.

(** ** C7: what runs before the first I/O *)

Lemma validate_search_inl (raw : RawSearch) errs :
  validate_search raw = inl errs -> errs = all_issues raw.
Proof.
  unfold validate_search, all_issues.
  destruct (check_q _); [intros H; injection H as <-; reflexivity|].
  destruct (check_district _); [intros H; injection H as <-; reflexivity|].
  destruct (check_cuisine _); [intros H; injection H as <-; reflexivity|].
  destruct (check_num _ _ _ (raw_price_range raw)); [intros H; injection H as <-; reflexivity|].
  destruct (check_num _ _ _ (raw_min_score raw)); [intros H; injection H as <-; reflexivity|].
  destruct (check_sort _); [intros H; injection H as <-; reflexivity|].
  destruct (check_page _); [intros H; injection H as <-; reflexivity|].
  destruct (check_limit _); [intros H; injection H as <-; reflexivity|].
  destruct (check_num _ _ _ (raw_lat raw)); [intros H; injection H as <-; reflexivity|].
  destruct (check_num _ _ _ (raw_lng raw)); [intros H; injection H as <-; reflexivity|].
  discriminate.
Qed.

(** Claim C7 (as the code has it): a request the schema rejects is
    answered without any Redis or Postgres call; a [sort_by=distance]
    request without [lat] or [lng] is answered after exactly one Redis read
    (the cache lookup by its key) and before any Postgres query, with the
    400 or with a value found in the cache. *)
Theorem validation_before_storage (md5 : jstr -> list Byte.byte) (raw : RawSearch) (be : Backend) :
  (forall errs, validate_search raw = inl errs ->
     run (search_endpoint md5 raw) be = ([], Ret (SchemaError errs))) /\
  (forall r, validate_search raw = inr r ->
     is_distance (sort_by r) = true -> (lat r = None \/ lng r = None) ->
     exists rep, run (search_endpoint md5 raw) be =
                 ([ECacheGet (search_key md5 r)], Ret (Handled rep)) /\
       (rep = RBadRequest distance_error_message \/ exists v, rep = RHit v)).
Proof.
  split.
  - intros errs H. unfold search_endpoint. rewrite H. reflexivity.
  - intros r H Hd Hc. unfold search_endpoint. rewrite H.
    unfold run at 1, bind at 1. fold (run (search_handler md5 r) be).
    rewrite search_handler_run.
    destruct (match redis_get be (search_key md5 r) with
              | Ret (Some s) => json_parse s | _ => None end) as [v|].
    + eexists. split; [reflexivity|]. right. eexists; reflexivity.
    + rewrite Hd. assert (Hn : (is_none (lat r) || is_none (lng r))%bool = true)
        by (destruct Hc as [-> | ->]; [reflexivity|apply orb_true_r]).
      rewrite Hn. cbn. eexists. split; [reflexivity|left; reflexivity].
Qed.

Lemma validation_before_storage_witness :
  run (search_endpoint md5_zero raw_bad) backend0 = ([], Ret (SchemaError ["q"; "page"]%string)) /\
  validate_search raw_no_lng = inr query_no_lng /\
  is_distance (sort_by query_no_lng) = true /\ (lat query_no_lng = None \/ lng query_no_lng = None) /\
  exists rep, run (search_endpoint md5_zero raw_no_lng) backend0 =
              ([ECacheGet (search_key md5_zero query_no_lng)], Ret (Handled rep)) /\
    (rep = RBadRequest distance_error_message \/ exists v, rep = RHit v).
Proof.
  split; [apply (proj1 (validation_before_storage md5_zero raw_bad backend0)); vm_compute; reflexivity|].
  split; [vm_compute; reflexivity|]. split; [reflexivity|]. split; [right; reflexivity|].
  apply (proj2 (validation_before_storage md5_zero raw_no_lng backend0));
    [vm_compute; reflexivity|reflexivity|right; reflexivity].
Defined.

(** Counterexample to C7 as stated: the coordinate check of a
    [sort_by=distance] request without [lng] passes the schema and is made
    by the handler after its Redis read; the 400 comes with a cache call
    already issued. *)
Lemma distance_check_after_cache_read :
  validate_search raw_no_lng = inr query_no_lng /\
  run (search_endpoint md5_zero raw_no_lng) backend0 =
    ([ECacheGet (search_key md5_zero query_no_lng)],
     Ret (Handled (RBadRequest distance_error_message))).
Proof. split; vm_compute; reflexivity. Qed.

(** ** C8: the length check of [q] *)

Lemma issue_check_num n lo hi o :
  issue (check_num n lo hi o) = [] \/ issue (check_num n lo hi o) = [n].
Proof.
  destruct o as [[|z]|]; cbn; auto. destruct (_ && _); auto.
Qed.

Lemma q_not_in_other_issues (raw : RawSearch) :
  ~ In "q"%string (issue (check_district (raw_district raw)) ++
      issue (check_cuisine (raw_cuisine raw)) ++
      issue (check_num "price_range" 1 4 (raw_price_range raw)) ++
      issue (check_num "min_score" 1 10 (raw_min_score raw)) ++
      issue (check_sort (raw_sort_by raw)) ++ issue (check_page (raw_page raw)) ++
      issue (check_limit (raw_limit raw)) ++ issue (check_num "lat" (-90) 90 (raw_lat raw)) ++
      issue (check_num "lng" (-180) 180 (raw_lng raw))).
Proof.
  assert (Hd : issue (check_district (raw_district raw)) = [] \/
               issue (check_district (raw_district raw)) = ["district"%string]).
  { destruct (raw_district raw); cbn; auto. destruct (_ <=? _); auto. }
  assert (Hc : issue (check_cuisine (raw_cuisine raw)) = [] \/
               issue (check_cuisine (raw_cuisine raw)) = ["cuisine"%string]).
  { destruct (raw_cuisine raw); cbn; auto.
    match goal with |- context [if ?b then _ else _] => destruct b end; auto. }
  assert (Hs : issue (check_sort (raw_sort_by raw)) = [] \/
               issue (check_sort (raw_sort_by raw)) = ["sort_by"%string]).
  { destruct (raw_sort_by raw); cbn; auto.
    destruct (String.eqb _ "score"); [auto|]. destruct (String.eqb _ "distance"); [auto|].
    destruct (String.eqb _ "newest"); auto. }
  assert (Hp : issue (check_page (raw_page raw)) = [] \/
               issue (check_page (raw_page raw)) = ["page"%string]).
  { destruct (raw_page raw) as [[|z]|]; cbn; auto. destruct (0 <? z); auto. }
  assert (Hl : issue (check_limit (raw_limit raw)) = [] \/
               issue (check_limit (raw_limit raw)) = ["limit"%string]).
  { destruct (raw_limit raw) as [[|z]|]; cbn; auto. destruct (_ && _); auto. }
  destruct Hd as [-> | ->], Hc as [-> | ->], Hs as [-> | ->], Hp as [-> | ->],
    Hl as [-> | ->],
    (issue_check_num "price_range" 1 4 (raw_price_range raw)) as [-> | ->],
    (issue_check_num "min_score" 1 10 (raw_min_score raw)) as [-> | ->],
    (issue_check_num "lat" (-90) 90 (raw_lat raw)) as [-> | ->],
    (issue_check_num "lng" (-180) 180 (raw_lng raw)) as [-> | ->];
    cbn; intuition discriminate.
Qed.

Lemma validate_search_inr (raw : RawSearch) r :
  validate_search raw = inr r -> check_q (raw_q raw) = inr (q r).
Proof.
  unfold validate_search.
  destruct (check_q _); [discriminate|].
  destruct (check_district _); [discriminate|].
  destruct (check_cuisine _); [discriminate|].
  destruct (check_num _ _ _ (raw_price_range raw)); [discriminate|].
  destruct (check_num _ _ _ (raw_min_score raw)); [discriminate|].
  destruct (check_sort _); [discriminate|].
  destruct (check_page _); [discriminate|].
  destruct (check_limit _); [discriminate|].
  destruct (check_num _ _ _ (raw_lat raw)); [discriminate|].
  destruct (check_num _ _ _ (raw_lng raw)); [discriminate|].
  intros H; injection H as <-; reflexivity.
Qed.

(** Claim C8 (as the code has it): [q] is not trimmed. The schema reports
    an issue on [q] exactly when [q] is missing or its raw length (in code
    units) is below 2 or above 100, and an accepted [q] reaches the handler
    unchanged, leading and trailing white space included. *)
Theorem q_length_checked_untrimmed (raw : RawSearch) :
  ((exists errs, validate_search raw = inl errs /\ In "q"%string errs) <->
   match raw_q raw with
   | Some s => (List.length s < 2)%nat \/ (100 < List.length s)%nat
   | None => True
   end) /\
  (forall r s, validate_search raw = inr r -> raw_q raw = Some s -> q r = string_of_list_ascii s).
Proof.
  split; [split|].
  - intros (errs & H & Hin). apply validate_search_inl in H. subst errs.
    unfold all_issues in Hin. apply in_app_or in Hin as [Hin|Hin];
      [|exfalso; exact (q_not_in_other_issues raw Hin)].
    destruct (raw_q raw) as [s|]; [|trivial]. cbn in Hin.
    destruct ((2 <=? Z.of_nat (List.length s)) && (Z.of_nat (List.length s) <=? 100))%bool eqn:E;
      cbn in Hin; [contradiction|].
    apply andb_false_iff in E as [E|E]; apply Z.leb_gt in E; lia.
  - intros Hlen. exists (all_issues raw).
    assert (HQ : check_q (raw_q raw) = inl "q"%string).
    { destruct (raw_q raw) as [s|]; [|reflexivity]. cbn.
      replace ((2 <=? Z.of_nat (List.length s)) && (Z.of_nat (List.length s) <=? 100))%bool
        with false; [reflexivity|].
      symmetry. apply andb_false_iff. destruct Hlen; [left|right]; apply Z.leb_gt; lia. }
    unfold validate_search, all_issues. rewrite HQ. split; [reflexivity|left; reflexivity].
  - intros r s H Hq. apply validate_search_inr in H. rewrite Hq in H. cbn in H.
    destruct (_ && _); [injection H as ->; reflexivity|discriminate].
Qed.

Lemma q_length_checked_untrimmed_witness :
  (exists errs, validate_search raw_bad = inl errs /\ In "q"%string errs) /\
  validate_search raw_blank = inr (mkSearch "   " None None None None SortScore 1 20 None None) /\
  raw_q raw_blank = Some (js "   ") /\
  q (mkSearch "   " None None None None SortScore 1 20 None None) = string_of_list_ascii (js "   ").
Proof.
  split; [apply (proj2 (proj1 (q_length_checked_untrimmed raw_bad))); cbn; left; lia|].
  split; [vm_compute; reflexivity|]. split; [reflexivity|].
  apply (proj2 (q_length_checked_untrimmed raw_blank)); [vm_compute|]; reflexivity.
Defined.

(** Counterexample to C8 as stated: [q] made of three spaces trims to the
    empty string, yet the schema accepts it and the handler searches for
    the three spaces. *)
Lemma blank_query_accepted :
  js_trim (js "   ") = [] /\
  validate_search raw_blank = inr (mkSearch "   " None None None None SortScore 1 20 None None).
Proof. split; vm_compute; reflexivity. Qed.

(** ** C9: the detail route and inactive restaurants *)

Lemma detail_handler_run (slug : string) (be : Backend) :
  run (detail_handler slug) be =
  match match redis_get be (restaurant_key slug) with
        | Ret (Some s) => json_parse s
        | _ => None
        end with
  | Some v => ([ECacheGet (restaurant_key slug)], Ret (DHit v))
  | None =>
      match db_detail be (mkDetailQuery slug true) with
      | Throw e => ([ECacheGet (restaurant_key slug); EStorage (QDetail (mkDetailQuery slug true))],
                    Throw e)
      | Ret [] => ([ECacheGet (restaurant_key slug); EStorage (QDetail (mkDetailQuery slug true))],
                   Ret (DNotFound ("Restoran bulunamadi: " ++ slug)%string))
      | Ret (rest :: _) =>
          ([ECacheGet (restaurant_key slug); EStorage (QDetail (mkDetailQuery slug true));
            ECacheSet (restaurant_key slug) (SDetail (mkDetailResponse rest)) 900],
           Ret (DOk (mkDetailResponse rest)))
      end
  end.
Proof.
  unfold detail_handler. unfold_monad. cbn -[restaurant_key].
  destruct (redis_get be (restaurant_key slug)) as [e|[v|]]; cbn -[restaurant_key];
    [| destruct (json_parse v); cbn -[restaurant_key]; [reflexivity|] |];
    destruct (db_detail be _) as [e'|[|rest rows]]; cbn -[restaurant_key]; try reflexivity;
    destruct (redis_set be _ _ _); reflexivity.
Qed.




(** ** C10: autocomplete *)

Lemma autocomplete_handler_reply (raw : jstr) (be : Backend) :
  snd (run (autocomplete_handler raw) be) =
  match match redis_get be (auto_key (js_trim raw)) with
        | Ret (Some s) => json_parse s
        | _ => None
        end with
  | Some v => Ret (AHit v)
  | None =>
      match db_auto_rest be (mkAutoRestQuery (js_trim raw) 5),
            db_auto_dish be (mkAutoDishQuery (js_trim raw) 5) with
      | Ret a, Ret b => Ret (AOk (mkAutoResponse (map auto_restaurant a) (map auto_dish b)))
      | Throw e, _ => Throw e
      | _, Throw e => Throw e
      end
  end.
Proof.
  unfold autocomplete_handler. unfold_monad. cbn -[auto_key js_trim].
  destruct (redis_get be (auto_key (js_trim raw))) as [e|[v|]]; cbn -[auto_key js_trim];
    [| destruct (json_parse v); cbn -[auto_key js_trim]; [reflexivity|] |];
    destruct (db_auto_rest be (mkAutoRestQuery (js_trim raw) 5)),
      (db_auto_dish be (mkAutoDishQuery (js_trim raw) 5)); cbn -[auto_key js_trim]; try reflexivity;
    destruct (redis_set be _ _ _); reflexivity.
Qed.

(** Claim C10 (as the code has it): when the cache holds a value for the
    query, the autocomplete reply is that stored value; when it has none,
    the reply lists at most five restaurants, the answer of the restaurant
    query ordered by similarity descending then overall score descending
    (NULL first), all of them active rows of the database, and at most five
    dishes ordered by similarity descending. *)
Theorem autocomplete_on_miss (E : Engine) (s : Snapshot) (raw : jstr) (be : Backend) :
  storage_faithful E s be ->
  (forall v, match redis_get be (auto_key (js_trim raw)) with
             | Ret (Some x) => json_parse x | _ => None end = Some v ->
     snd (run (autocomplete_handler raw) be) = Ret (AHit v)) /\
  (forall resp, snd (run (autocomplete_handler raw) be) = Ret (AOk resp) ->
   match redis_get be (auto_key (js_trim raw)) with
   | Ret (Some x) => json_parse x | _ => None end = None /\
   exists rows dishes,
    db_auto_rest be (mkAutoRestQuery (js_trim raw) 5) = Ret rows /\
    db_auto_dish be (mkAutoDishQuery (js_trim raw) 5) = Ret dishes /\
    au_restaurants resp = map auto_restaurant rows /\
    au_dishes resp = map auto_dish dishes /\
    (List.length (au_restaurants resp) <= 5)%nat /\ (List.length (au_dishes resp) <= 5)%nat /\
    Sorted (fun a b => auto_rest_le E (mkAutoRestQuery (js_trim raw) 5) a b = true) rows /\
    Sorted (fun a b => (dish_similarity E (mkAutoDishQuery (js_trim raw) 5) b <=?
                        dish_similarity E (mkAutoDishQuery (js_trim raw) 5) a) = true)
      (map fst dishes) /\
    Forall (fun v => In v (venues s) /\ v_active v = true) rows).
Proof.
  intros (_ & _ & _ & _ & Hrest & Hdish). split.
  { intros v Hv. rewrite autocomplete_handler_reply, Hv. reflexivity. }
  intros resp H. rewrite autocomplete_handler_reply in H.
  destruct (match redis_get be (auto_key (js_trim raw)) with
            | Ret (Some x) => json_parse x | _ => None end); [discriminate|].
  split; [reflexivity|].
  destruct (db_auto_rest be (mkAutoRestQuery (js_trim raw) 5)) as [e|rows] eqn:Hr,
    (db_auto_dish be (mkAutoDishQuery (js_trim raw) 5)) as [e'|dishes] eqn:Hd;
    try discriminate.
  injection H as <-. exists rows, dishes. cbn.
  destruct (Hrest _ _ Hr) as (l & Hperm & Hsorted & Hrows).
  destruct (Hdish _ _ Hd) as (l' & Hperm' & Hsorted' & Hdishes).
  do 4 (split; [reflexivity|]).
  split; [rewrite length_map, Hrows; apply firstn_le_length|].
  split; [rewrite length_map, <- (length_map fst), Hdishes; apply firstn_le_length|].
  split; [rewrite Hrows; apply sorted_firstn, Hsorted|].
  split; [rewrite Hdishes; apply sorted_firstn, Hsorted'|].
  rewrite Forall_forall. intros v Hv. rewrite Hrows in Hv.
  assert (Hin : In v (filter (auto_rest_selected E (mkAutoRestQuery (js_trim raw) 5)) (venues s))).
  { apply (Permutation_in _ Hperm). rewrite <- (firstn_skipn 5 l). apply in_or_app; left; exact Hv. }
  apply filter_In in Hin as [Hin Hsel]. unfold auto_rest_selected in Hsel.
  apply andb_prop in Hsel as [_ Ha]. split; assumption.
Qed.

Lemma autocomplete_on_miss_witness :
  storage_faithful engine0 snapshot_closed backend_closed_auto /\
  match redis_get backend_closed_auto (auto_key (js_trim (js "Kebapci"))) with
  | Ret (Some x) => json_parse x | _ => None end = Some (SAuto auto_response0) /\
  snd (run (autocomplete_handler (js "Kebapci")) backend_closed_auto) =
    Ret (AHit (SAuto auto_response0)) /\
  storage_faithful engine0 snapshot0 backend0 /\
  snd (run (autocomplete_handler (js "Kebapci")) backend0) = Ret (AOk auto_response0) /\
  match redis_get backend0 (auto_key (js_trim (js "Kebapci"))) with
  | Ret (Some x) => json_parse x | _ => None end = None /\
  exists rows dishes,
    db_auto_rest backend0 (mkAutoRestQuery (js_trim (js "Kebapci")) 5) = Ret rows /\
    db_auto_dish backend0 (mkAutoDishQuery (js_trim (js "Kebapci")) 5) = Ret dishes /\
    au_restaurants auto_response0 = map auto_restaurant rows /\
    au_dishes auto_response0 = map auto_dish dishes /\
    (List.length (au_restaurants auto_response0) <= 5)%nat /\
    (List.length (au_dishes auto_response0) <= 5)%nat /\
    Sorted (fun a b => auto_rest_le engine0 (mkAutoRestQuery (js_trim (js "Kebapci")) 5) a b = true)
      rows /\
    Sorted (fun a b =>
              (dish_similarity engine0 (mkAutoDishQuery (js_trim (js "Kebapci")) 5) b <=?
               dish_similarity engine0 (mkAutoDishQuery (js_trim (js "Kebapci")) 5) a) = true)
      (map fst dishes) /\
    Forall (fun v => In v (venues snapshot0) /\ v_active v = true) rows.
Proof.
  assert (Hfc : storage_faithful engine0 snapshot_closed backend_closed_auto)
    by exact (ref_backend_faithful engine0 snapshot_closed _ _).
  assert (Hhit : match redis_get backend_closed_auto (auto_key (js_trim (js "Kebapci"))) with
                 | Ret (Some x) => json_parse x | _ => None end = Some (SAuto auto_response0))
    by (vm_compute; reflexivity).
  assert (Hf0 : storage_faithful engine0 snapshot0 backend0) by apply ref_backend_faithful.
  assert (Hok : snd (run (autocomplete_handler (js "Kebapci")) backend0) = Ret (AOk auto_response0))
    by (vm_compute; reflexivity).
  split; [exact Hfc|]. split; [exact Hhit|].
  split; [exact (proj1 (autocomplete_on_miss engine0 snapshot_closed (js "Kebapci")
                          backend_closed_auto Hfc) _ Hhit)|].
  split; [exact Hf0|]. split; [exact Hok|].
  exact (proj2 (autocomplete_on_miss engine0 snapshot0 (js "Kebapci") backend0 Hf0)
           auto_response0 Hok).
Defined.

(** Counterexample to C10 as stated: Redis keeps an autocomplete response
    computed while [kebapci-ali] was active; after it is deactivated the
    same query returns that response, which suggests the inactive
    restaurant, for as long as the entry lives (TTL 3600 s). *)
Lemma inactive_restaurant_suggested_from_cache :
  reachable md5_zero store_auto /\
  storage_faithful engine0 snapshot_closed backend_closed_auto /\
  snd (run (autocomplete_handler (js "Kebapci")) backend_closed_auto) =
    Ret (AHit (SAuto auto_response0)) /\
  map ar_id (au_restaurants auto_response0) = [2; 1] /\
  forall v, In v (venues snapshot_closed) -> v_id v = 1 -> v_active v = false.
Proof.
  split; [eapply reach_step; [apply reach_init|]; unfold store_auto; apply step_auto|].
  split; [exact (ref_backend_faithful engine0 snapshot_closed _ _)|].
  split; [vm_compute; reflexivity|]. split; [vm_compute; reflexivity|].
  intros v [<-|[<-|[]]]; cbn; [reflexivity|discriminate].
Qed.

(** ** C2: the search cache key *)

Lemma nat_of_ascii_inj (a b : ascii) : nat_of_ascii a = nat_of_ascii b -> a = b.
Proof.
  intros H. rewrite <- (ascii_nat_embedding a), <- (ascii_nat_embedding b), H. reflexivity.
Qed.

Lemma cu_lt_irrefl (a : jstr) : cu_lt a a = false.
Proof.
  induction a as [|x a IH]; cbn [cu_lt]; [reflexivity|].
  rewrite (Nat.ltb_irrefl (nat_of_ascii x)), Nat.eqb_refl. exact IH.
Qed.

Lemma cu_lt_trans (a b c : jstr) : cu_lt a b = true -> cu_lt b c = true -> cu_lt a c = true.
Proof.
  revert b c; induction a as [|x a IH]; intros [|y b] [|z c]; cbn [cu_lt]; try easy.
  destruct (Nat.ltb_spec (nat_of_ascii x) (nat_of_ascii y)),
    (Nat.ltb_spec (nat_of_ascii y) (nat_of_ascii z)),
    (Nat.ltb_spec (nat_of_ascii x) (nat_of_ascii z)); try easy;
  destruct (Nat.eqb_spec (nat_of_ascii x) (nat_of_ascii y)),
    (Nat.eqb_spec (nat_of_ascii y) (nat_of_ascii z)),
    (Nat.eqb_spec (nat_of_ascii x) (nat_of_ascii z)); try easy; try lia.
  apply IH.
Qed.

Lemma cu_lt_total (a b : jstr) : a <> b -> cu_lt a b = false -> cu_lt b a = true.
Proof.
  revert b; induction a as [|x a IH]; intros [|y b]; cbn [cu_lt]; try easy.
  intros Hne.
  destruct (Nat.ltb_spec (nat_of_ascii x) (nat_of_ascii y)); [easy|].
  destruct (Nat.eqb_spec (nat_of_ascii x) (nat_of_ascii y)) as [Heq|Hneq].
  - apply nat_of_ascii_inj in Heq as ->.
    rewrite (Nat.ltb_irrefl (nat_of_ascii y)), Nat.eqb_refl. apply IH. congruence.
  - intros _. destruct (Nat.ltb_spec (nat_of_ascii y) (nat_of_ascii x)); [reflexivity|lia].
Qed.

Lemma cu_lt_asym (a b : jstr) : cu_lt a b = true -> cu_lt b a = false.
Proof.
  intros H. destruct (cu_lt b a) eqn:H'; [|reflexivity].
  pose proof (cu_lt_trans _ _ _ H H') as H''. rewrite cu_lt_irrefl in H''. discriminate.
Qed.

Lemma insert_entry_perm (x : entry) (l : list entry) : Permutation (insert_entry x l) (x :: l).
Proof.
  induction l as [|y l IH]; cbn; [reflexivity|].
  destruct (cu_lt (render x) (render y)); [reflexivity|].
  rewrite IH. apply perm_swap.
Qed.

Lemma js_sort_fold_perm (l acc : list entry) :
  Permutation (fold_left (fun acc x => insert_entry x acc) l acc) (l ++ acc).
Proof.
  revert acc; induction l as [|x l IH]; intros acc; cbn; [reflexivity|].
  rewrite IH, insert_entry_perm. apply Permutation_sym, Permutation_middle.
Qed.

Lemma js_sort_perm (l : list entry) : Permutation (js_sort l) l.
Proof. unfold js_sort. rewrite js_sort_fold_perm, app_nil_r. reflexivity. Qed.

Lemma insert_entry_sorted (x : entry) (l : list entry) :
  Sorted entry_lt l -> (forall y, In y l -> render x <> render y) ->
  Sorted entry_lt (insert_entry x l).
Proof.
  induction 1 as [|y l Hs IH Hhd]; intros Hd; cbn; [repeat constructor|].
  destruct (cu_lt (render x) (render y)) eqn:Hxy.
  - constructor; [constructor; assumption|constructor; exact Hxy].
  - assert (Hyx : entry_lt y x).
    { apply cu_lt_total; [|exact Hxy]. intros He. apply (Hd y); [left; reflexivity|congruence]. }
    constructor; [apply IH; intros z Hz; apply Hd; right; exact Hz|].
    destruct l as [|z l]; cbn; [constructor; exact Hyx|].
    destruct (cu_lt (render x) (render z)); constructor; [exact Hyx|inversion Hhd; assumption].
Qed.

Lemma js_sort_fold_sorted (l acc : list entry) :
  Sorted entry_lt acc -> NoDup (map render (l ++ acc)) ->
  Sorted entry_lt (fold_left (fun acc x => insert_entry x acc) l acc).
Proof.
  revert acc; induction l as [|x l IH]; intros acc Hs Hnd; cbn; [exact Hs|].
  apply IH.
  - apply insert_entry_sorted; [exact Hs|]. intros y Hy He.
    cbn in Hnd. apply NoDup_cons_iff in Hnd as [Hn _]. apply Hn.
    rewrite He. apply in_map, in_or_app. right; exact Hy.
  - apply (Permutation_NoDup (l := map render (x :: l ++ acc))).
    + apply Permutation_map. rewrite insert_entry_perm. apply Permutation_middle.
    + exact Hnd.
Qed.

Lemma js_sort_sorted (l : list entry) :
  NoDup (map render l) -> StronglySorted entry_lt (js_sort l).
Proof.
  intros Hnd. apply Sorted_StronglySorted.
  - intros a b c. apply cu_lt_trans.
  - apply js_sort_fold_sorted; [constructor|]. rewrite app_nil_r. exact Hnd.
Qed.

Lemma strictly_sorted_unique (a b : list entry) :
  StronglySorted entry_lt a -> StronglySorted entry_lt b -> Permutation a b -> a = b.
Proof.
  revert b; induction a as [|x a IH]; intros b Ha Hb Hp.
  - apply Permutation_nil in Hp. symmetry; exact Hp.
  - destruct b as [|y b]; [apply Permutation_sym, Permutation_nil in Hp; discriminate|].
    apply StronglySorted_inv in Ha as [Ha Hxa]. apply StronglySorted_inv in Hb as [Hb Hyb].
    rewrite Forall_forall in Hxa, Hyb.
    assert (x = y) as <-.
    { destruct (list_eq_dec ascii_dec (render x) (render y)) as [He|Hne].
      - apply (Permutation_in x) in Hp as Hx; [|left; reflexivity].
        destruct Hx as [->|Hx]; [reflexivity|].
        specialize (Hyb x Hx). unfold entry_lt in Hyb. rewrite He, cu_lt_irrefl in Hyb.
        discriminate.
      - exfalso.
        apply (Permutation_in x) in Hp as Hx; [|left; reflexivity].
        destruct Hx as [->|Hx]; [apply Hne; reflexivity|].
        apply Permutation_sym, (Permutation_in y) in Hp as Hy; [|left; reflexivity].
        destruct Hy as [->|Hy]; [apply Hne; reflexivity|].
        specialize (Hyb x Hx). specialize (Hxa y Hy). unfold entry_lt in *.
        rewrite (cu_lt_asym _ _ Hyb) in Hxa. discriminate. }
    f_equal. apply IH; [exact Ha|exact Hb|]. apply Permutation_cons_inv in Hp. exact Hp.
Qed.

Lemma comma_split (k1 k2 s1 s2 : jstr) :
  ~ In ","%char k1 -> ~ In ","%char k2 ->
  k1 ++ ","%char :: s1 = k2 ++ ","%char :: s2 -> k1 = k2 /\ s1 = s2.
Proof.
  revert k2; induction k1 as [|a k1 IH]; intros [|b k2] H1 H2 H; cbn in H.
  - injection H as ->. auto.
  - injection H as Hb _. exfalso. apply H2. left; symmetry; exact Hb.
  - injection H as Ha _. exfalso. apply H1. left; exact Ha.
  - injection H as -> H. destruct (IH k2) as [-> ->]; auto.
    + intros Hc. apply H1. right; exact Hc.
    + intros Hc. apply H2. right; exact Hc.
Qed.

Lemma schema_keys_comma_free (k : jstr) : In k search_schema_keys -> ~ In ","%char k.
Proof.
  intros Hk. cbn in Hk.
  repeat (destruct Hk as [<-|Hk]; [cbn; intuition discriminate|]). contradiction.
Qed.

Lemma NoDup_map_transfer {A B C} (f : A -> B) (g : A -> C) (l : list A) :
  NoDup (map f l) -> (forall a b, In a l -> In b l -> g a = g b -> f a = f b) ->
  NoDup (map g l).
Proof.
  induction l as [|x l IH]; cbn; intros Hnd Hfg; [constructor|].
  apply NoDup_cons_iff in Hnd as [Hn Hnd]. constructor.
  - intros Hin. apply in_map_iff in Hin as (y & Hy & Hin). apply Hn.
    rewrite <- (Hfg y x); [apply in_map; exact Hin|right; exact Hin|left; reflexivity|exact Hy].
  - apply IH; [exact Hnd|]. intros a b Ha Hb. apply Hfg; right; assumption.
Qed.

Lemma render_nodup (l : list entry) :
  NoDup (map fst l) -> Forall (fun e => In (fst e) search_schema_keys) l ->
  NoDup (map render l).
Proof.
  intros Hnd Hk. apply (NoDup_map_transfer fst); [exact Hnd|].
  rewrite Forall_forall in Hk. intros [ka va] [kb vb] Ha Hb H. unfold render in H. cbn in *.
  apply comma_split in H as [-> _]; [reflexivity| |];
    apply schema_keys_comma_free; [apply (Hk _ Ha)|apply (Hk _ Hb)].
Qed.

Lemma set_entry_absent (k : jstr) (v : JsVal) (acc : list entry) :
  ~ In k (map fst acc) -> set_entry k v acc = acc ++ [(k, v)].
Proof.
  induction acc as [|[k' v'] acc IH]; intros Hn; cbn; [reflexivity|].
  destruct (list_eq_dec ascii_dec k k') as [->|_]; [exfalso; apply Hn; left; reflexivity|].
  rewrite IH; [reflexivity|]. intros H; apply Hn; right; exact H.
Qed.

Lemma from_entries_fold (l acc : list entry) :
  NoDup (map fst (acc ++ l)) ->
  fold_left (fun acc kv => set_entry (fst kv) (snd kv) acc) l acc = acc ++ l.
Proof.
  revert acc; induction l as [|x l IH]; intros acc Hnd; cbn; [symmetry; apply app_nil_r|].
  rewrite set_entry_absent.
  - destruct x as [k v]. rewrite IH; [rewrite <- app_assoc; reflexivity|].
    rewrite <- app_assoc. exact Hnd.
  - rewrite map_app in Hnd. cbn in Hnd. apply NoDup_remove_2 in Hnd.
    intros H. apply Hnd, in_or_app. left; exact H.
Qed.

Lemma from_entries_id (l : list entry) : NoDup (map fst l) -> from_entries l = l.
Proof. intros H. unfold from_entries. apply from_entries_fold. exact H. Qed.

Lemma js_sort_set_equal (l1 l2 : list entry) :
  NoDup (map fst l1) -> NoDup (map fst l2) ->
  Forall (fun e => In (fst e) search_schema_keys) l1 ->
  (forall e, In e l1 <-> In e l2) ->
  js_sort l1 = js_sort l2.
Proof.
  intros H1 H2 Hk Hset.
  assert (Hk2 : Forall (fun e => In (fst e) search_schema_keys) l2).
  { rewrite Forall_forall in *. intros e He. apply Hk, Hset, He. }
  apply strictly_sorted_unique.
  - apply js_sort_sorted, render_nodup; assumption.
  - apply js_sort_sorted, render_nodup; assumption.
  - rewrite !js_sort_perm. apply NoDup_Permutation; [| |exact Hset];
      eapply NoDup_map_inv; eassumption.
Qed.

Lemma search_payload_sorted (l : list entry) :
  NoDup (map fst l) -> search_payload l = json_object (js_sort l).
Proof.
  intros H. unfold search_payload. rewrite from_entries_id; [reflexivity|].
  apply (Permutation_NoDup (l := map fst l)); [|exact H].
  apply Permutation_map, Permutation_sym, js_sort_perm.
Qed.

Lemma hex_length (bs : list Byte.byte) : List.length (hex bs) = (2 * List.length bs)%nat.
Proof. unfold hex. induction bs as [|b bs IH]; cbn; [reflexivity|]. rewrite IH. lia. Qed.

Lemma in_all_ascii (c : ascii) : In c all_ascii.
Proof.
  rewrite <- (ascii_nat_embedding c). apply in_map, in_seq.
  pose proof (nat_ascii_bounded c). lia.
Qed.

Lemma escape_prefix_free_ok : escape_prefix_free = true.
Proof. vm_compute. reflexivity. Qed.

Lemma escape_heads_ok_true : escape_heads_ok = true.
Proof. vm_compute. reflexivity. Qed.

Lemma is_prefix_app (a b r1 r2 : jstr) :
  a ++ r1 = b ++ r2 -> is_prefix a b = true \/ is_prefix b a = true.
Proof.
  revert b; induction a as [|x a IH]; intros [|y b] H; cbn; auto.
  injection H as -> H. destruct (ascii_dec y y) as [_|n]; [|contradiction]. apply IH, H.
Qed.

Lemma escape_char_app_inj (c1 c2 : ascii) (r1 r2 : jstr) :
  escape_char c1 ++ r1 = escape_char c2 ++ r2 -> c1 = c2 /\ r1 = r2.
Proof.
  intros H.
  assert (Hpf := escape_prefix_free_ok). unfold escape_prefix_free in Hpf.
  rewrite forallb_forall in Hpf.
  assert (Hc : c1 = c2).
  { destruct (is_prefix_app _ _ _ _ H) as [Hp|Hp].
    - specialize (Hpf c1 (in_all_ascii c1)). rewrite forallb_forall in Hpf.
      specialize (Hpf c2 (in_all_ascii c2)). rewrite Hp in Hpf. cbn in Hpf.
      destruct (ascii_dec c1 c2); [assumption|discriminate].
    - specialize (Hpf c2 (in_all_ascii c2)). rewrite forallb_forall in Hpf.
      specialize (Hpf c1 (in_all_ascii c1)). rewrite Hp in Hpf. cbn in Hpf.
      destruct (ascii_dec c2 c1); [symmetry; assumption|discriminate]. }
  subst c2. split; [reflexivity|]. apply app_inv_head in H. exact H.
Qed.

Lemma escape_char_head (c : ascii) :
  exists x rest, escape_char c = x :: rest /\ x <> quote_char.
Proof.
  assert (H := escape_heads_ok_true). unfold escape_heads_ok in H.
  rewrite forallb_forall in H. specialize (H c (in_all_ascii c)).
  destruct (escape_char c) as [|x rest]; [discriminate|].
  exists x, rest. split; [reflexivity|]. destruct (ascii_dec x quote_char); [discriminate|assumption].
Qed.

Lemma escape_quote_inj (k1 k2 r1 r2 : jstr) :
  escape k1 ++ quote_char :: r1 = escape k2 ++ quote_char :: r2 -> k1 = k2 /\ r1 = r2.
Proof.
  unfold escape. revert k2; induction k1 as [|c1 k1 IH]; intros [|c2 k2] H; cbn in H.
  - injection H as ->. auto.
  - exfalso. destruct (escape_char_head c2) as (x & rest & Hx & Hq).
    rewrite Hx in H. injection H as Hxq _. apply Hq. symmetry. exact Hxq.
  - exfalso. destruct (escape_char_head c1) as (x & rest & Hx & Hq).
    rewrite Hx in H. injection H as Hxq _. apply Hq. exact Hxq.
  - rewrite <- !app_assoc in H. apply escape_char_app_inj in H as [-> H].
    apply IH in H as [-> ->]. auto.
Qed.

Lemma hex_byte_decode (b : Byte.byte) : unhex_byte (hex_byte b) = Some b.
Proof. destruct b; vm_compute; reflexivity. Qed.

Lemma hex_byte_length (b : Byte.byte) : exists c1 c2, hex_byte b = [c1; c2].
Proof. unfold hex_byte. eexists _, _. reflexivity. Qed.

Lemma hex_inj (bs1 bs2 : list Byte.byte) : hex bs1 = hex bs2 -> bs1 = bs2.
Proof.
  unfold hex. revert bs2; induction bs1 as [|b1 bs1 IH]; intros [|b2 bs2] H; cbn [flat_map] in H.
  - reflexivity.
  - destruct (hex_byte_length b2) as (c1 & c2 & E). rewrite E in H. discriminate.
  - destruct (hex_byte_length b1) as (c1 & c2 & E). rewrite E in H. discriminate.
  - destruct (hex_byte_length b1) as (c1 & c2 & E1), (hex_byte_length b2) as (d1 & d2 & E2).
    pose proof (hex_byte_decode b1) as D1. pose proof (hex_byte_decode b2) as D2.
    rewrite E1 in H, D1. rewrite E2 in H, D2. cbn in H. injection H as -> -> H.
    rewrite D1 in D2. injection D2 as ->. f_equal. apply IH, H.
Qed.

Lemma uint_chars_inj (u1 u2 : Decimal.uint) : uint_chars u1 = uint_chars u2 -> u1 = u2.
Proof.
  revert u2; induction u1; intros [] H; cbn in H; try discriminate; try reflexivity;
    injection H as H; f_equal; apply IHu1, H.
Qed.

Lemma uint_chars_num (u : Decimal.uint) : forallb num_char (uint_chars u) = true /\ ~ In "-"%char (uint_chars u).
Proof.
  induction u; cbn; [split; [reflexivity|tauto]|..];
    (destruct IHu as [H1 H2]; split; [exact H1|intros [H|H]; [discriminate H|exact (H2 H)]]).
Qed.

Lemma show_N_cons (n : N) : exists x rest, show_N n = x :: rest /\ x <> "-"%char.
Proof.
  unfold show_N.
  destruct (N.to_uint n) as [] eqn:E; [|eexists _, _; split; [reflexivity|discriminate]..].
  exfalso. pose proof (DecimalN.Unsigned.of_to n) as H. rewrite E in H. cbn in H. subst n.
  discriminate E.
Qed.

Lemma show_Z_num (z : Z) : show_Z z <> [] /\ forallb num_char (show_Z z) = true.
Proof.
  unfold show_Z, show_N. destruct (z <? 0).
  - split; [discriminate|]. cbn [forallb]. rewrite (proj1 (uint_chars_num _)). reflexivity.
  - destruct (show_N_cons (Z.to_N z)) as (x & rest & E & _). unfold show_N in E.
    rewrite E. split; [discriminate|]. rewrite <- E. apply uint_chars_num.
Qed.

Lemma show_Z_inj (z1 z2 : Z) : show_Z z1 = show_Z z2 -> z1 = z2.
Proof.
  unfold show_Z.
  destruct (Z.ltb_spec z1 0) as [L1|L1], (Z.ltb_spec z2 0) as [L2|L2]; intros H.
  - injection H as H. apply uint_chars_inj, DecimalN.Unsigned.to_uint_inj in H.
    apply Z2N.inj in H; lia.
  - destruct (show_N_cons (Z.to_N z2)) as (x & rest & E & Hx). rewrite E in H.
    injection H as Hx' _. congruence.
  - destruct (show_N_cons (Z.to_N z1)) as (x & rest & E & Hx). rewrite E in H.
    injection H as Hx' _. congruence.
  - apply uint_chars_inj, DecimalN.Unsigned.to_uint_inj in H. apply Z2N.inj in H; lia.
Qed.

Lemma num_split (a1 a2 t1 t2 : jstr) :
  forallb num_char a1 = true -> forallb num_char a2 = true -> delim t1 -> delim t2 ->
  a1 ++ t1 = a2 ++ t2 -> a1 = a2 /\ t1 = t2.
Proof.
  revert a2; induction a1 as [|x a1 IH]; intros [|y a2] H1 H2 D1 D2 H;
    cbn [app forallb] in H1, H2, H.
  - auto.
  - subst t1. unfold delim in D1. apply andb_prop in H2 as [H2 _]. congruence.
  - subst t2. unfold delim in D2. apply andb_prop in H1 as [H1 _]. congruence.
  - injection H as -> H. apply andb_prop in H1 as [_ H1]. apply andb_prop in H2 as [_ H2].
    destruct (IH a2 H1 H2 D1 D2 H) as [-> ->]. auto.
Qed.

Lemma json_value_app_inj (v1 v2 : JsVal) (t1 t2 : jstr) :
  delim t1 -> delim t2 -> json_value v1 ++ t1 = json_value v2 ++ t2 -> v1 = v2 /\ t1 = t2.
Proof.
  intros D1 D2. destruct v1 as [s1|z1], v2 as [s2|z2]; cbn; unfold json_quote.
  - cbn. intros H. injection H as H. rewrite <- !app_assoc in H. cbn in H.
    apply escape_quote_inj in H as [-> ->]. auto.
  - destruct (show_Z_num z2) as [Hne Hn]. destruct (show_Z z2) as [|x rest]; [contradiction|].
    cbn. intros H. injection H as Hx _. subst x. discriminate Hn.
  - destruct (show_Z_num z1) as [Hne Hn]. destruct (show_Z z1) as [|x rest]; [contradiction|].
    cbn. intros H. injection H as Hx _. subst x. discriminate Hn.
  - intros H. apply num_split in H as [H ->]; [|apply show_Z_num..|exact D1|exact D2].
    apply show_Z_inj in H as ->. auto.
Qed.

Lemma json_member_app_inj (e1 e2 : entry) (t1 t2 : jstr) :
  delim t1 -> delim t2 -> json_member e1 ++ t1 = json_member e2 ++ t2 -> e1 = e2 /\ t1 = t2.
Proof.
  intros D1 D2. destruct e1 as [k1 v1], e2 as [k2 v2]. unfold json_member, json_quote. cbn.
  intros H. injection H as H. rewrite <- !app_assoc in H. cbn in H.
  apply escape_quote_inj in H as [-> H]. injection H as H.
  apply json_value_app_inj in H as [-> ->]; auto.
Qed.

Lemma json_members_tail_delim (l : list entry) : delim (json_members_tail l).
Proof. destruct l; reflexivity. Qed.

Lemma json_members_tail_inj (l1 l2 : list entry) :
  json_members_tail l1 = json_members_tail l2 -> l1 = l2.
Proof.
  revert l2; induction l1 as [|e1 l1 IH]; intros [|e2 l2] H; cbn [json_members_tail] in H;
    [reflexivity|discriminate|discriminate|].
  apply (f_equal (@tl ascii)) in H. cbn [tl] in H.
  apply json_member_app_inj in H as [-> H]; try apply json_members_tail_delim.
  f_equal. apply IH, H.
Qed.

Lemma json_object_inj (l1 l2 : list entry) : json_object l1 = json_object l2 -> l1 = l2.
Proof.
  unfold json_object. intros H. apply (f_equal (@tl ascii)) in H. cbn [tl] in H.
  destruct l1 as [|e1 l1], l2 as [|e2 l2].
  - reflexivity.
  - destruct e2. discriminate H.
  - destruct e1. discriminate H.
  - apply json_member_app_inj in H as [-> H]; try apply json_members_tail_delim.
    f_equal. apply json_members_tail_inj, H.
Qed.

Lemma cache_key_same_or_collision (md5 : jstr -> list Byte.byte) (l1 l2 : list entry) :
  NoDup (map fst l1) -> NoDup (map fst l2) ->
  search_cache_key md5 l1 = search_cache_key md5 l2 ->
  (forall e, In e l1 <-> In e l2) \/
  (search_payload l1 <> search_payload l2 /\ md5 (search_payload l1) = md5 (search_payload l2)).
Proof.
  intros H1 H2 H. unfold search_cache_key in H. apply app_inv_head, hex_inj in H.
  destruct (list_eq_dec ascii_dec (search_payload l1) (search_payload l2)) as [E|N].
  - left. rewrite !search_payload_sorted in E by assumption.
    apply json_object_inj in E. intros e.
    split; intros He.
    + apply (Permutation_in _ (js_sort_perm l2)). rewrite <- E.
      apply (Permutation_in _ (Permutation_sym (js_sort_perm l1))), He.
    + apply (Permutation_in _ (js_sort_perm l1)). rewrite E.
      apply (Permutation_in _ (Permutation_sym (js_sort_perm l2))), He.
  - right. split; assumption.
Qed.

(** Claim C2: the search cache key depends only on the query's
    field-to-value mapping: two entry lists over the schema's keys, each
    key once, holding the same (key, value) pairs in any order give the same
    key; the key is ["search:"] and 32 hex digits (39 code units) for a
    16-byte digest; and two entry lists with the same key hold the same
    pairs unless the digest collides on two different payloads. *)
Theorem search_cache_key_canonical (md5 : jstr -> list Byte.byte) :
  (forall l1 l2, NoDup (map fst l1) -> NoDup (map fst l2) ->
     Forall (fun e => In (fst e) search_schema_keys) l1 ->
     (forall e, In e l1 <-> In e l2) ->
     search_cache_key md5 l1 = search_cache_key md5 l2) /\
  (forall l, List.length (md5 (search_payload l)) = 16%nat ->
     List.length (search_cache_key md5 l) = 39%nat) /\
  (forall l1 l2, NoDup (map fst l1) -> NoDup (map fst l2) ->
     search_cache_key md5 l1 = search_cache_key md5 l2 ->
     (forall e, In e l1 <-> In e l2) \/
     (search_payload l1 <> search_payload l2 /\
      md5 (search_payload l1) = md5 (search_payload l2))).
Proof.
  split; [|split].
  - intros l1 l2 H1 H2 Hk Hset. unfold search_cache_key, search_payload.
    rewrite (js_sort_set_equal l1 l2 H1 H2 Hk Hset). reflexivity.
  - intros l Hl. unfold search_cache_key. rewrite length_app, hex_length, Hl. reflexivity.
  - apply cache_key_same_or_collision.
Qed.

Lemma jstr_eqb_eq (a b : jstr) : jstr_eqb a b = true <-> a = b.
Proof. unfold jstr_eqb. destruct (list_eq_dec ascii_dec a b); split; congruence. Qed.

Lemma nodup_keys_sound (l : list jstr) : nodup_keys l = true -> NoDup l.
Proof.
  induction l as [|k l IH]; cbn; intros H; [constructor|].
  apply andb_prop in H as [H1 H2]. constructor; [|apply IH, H2].
  intros Hin. apply negb_true_iff in H1.
  assert (existsb (jstr_eqb k) l = true) as H3 by
    (apply existsb_exists; exists k; split; [exact Hin|apply jstr_eqb_eq; reflexivity]).
  congruence.
Qed.

Lemma schema_keys_only_sound (l : list entry) :
  schema_keys_only l = true -> Forall (fun e => In (fst e) search_schema_keys) l.
Proof.
  unfold schema_keys_only. rewrite forallb_forall, Forall_forall. intros H e He.
  pose proof (H e He) as He'. apply existsb_exists in He' as (k & Hk & Heq). apply jstr_eqb_eq in Heq.
  rewrite Heq. exact Hk.
Qed.

(** Witness of C2: the entries of the distance query and the same entries
    reversed give one key; the key has 39 characters; and with a digest
    that maps everything to zero the score and distance queries share a key
    only through an MD5 collision. *)
Lemma search_cache_key_canonical_witness :
  search_cache_key md5_zero (query_entries query_distance) =
    search_cache_key md5_zero (rev (query_entries query_distance)) /\
  List.length (search_cache_key md5_zero (query_entries query_distance)) = 39%nat /\
  ((forall e, In e (query_entries query_score) <-> In e (query_entries query_distance)) \/
   (search_payload (query_entries query_score) <> search_payload (query_entries query_distance) /\
    md5_zero (search_payload (query_entries query_score)) =
      md5_zero (search_payload (query_entries query_distance)))).
Proof.
  destruct (search_cache_key_canonical md5_zero) as (P1 & P2 & P3).
  split; [|split].
  - apply P1.
    + apply nodup_keys_sound. vm_compute. reflexivity.
    + apply nodup_keys_sound. vm_compute. reflexivity.
    + apply schema_keys_only_sound. vm_compute. reflexivity.
    + intros e. split; [apply in_rev|]. intros He. rewrite <- (rev_involutive (query_entries query_distance)).
      apply (proj1 (in_rev _ _)). exact He.
  - apply P2. reflexivity.
  - apply P3.
    + apply nodup_keys_sound. vm_compute. reflexivity.
    + apply nodup_keys_sound. vm_compute. reflexivity.
    + vm_compute. reflexivity.
Defined.

(** ** C4: distance ordering without coordinates *)

Lemma apply_sets_some (s : bool) (tr : list event) (st : Store) (k : jstr) (v : Stored) :
  apply_sets s tr st k = Some v ->
  st k = Some v \/ exists v' t, In (ECacheSet k v' t) tr.
Proof.
  revert st. induction tr as [|ev tr IH]; intros st H; cbn in H; [left; exact H|].
  destruct ev as [k0|k0 v0 t0|qry].
  - destruct (IH st H) as [H'|(v' & t & H')]; [left; exact H'|right; exists v', t; right; exact H'].
  - destruct (IH _ H) as [H'|(v' & t & H')].
    + destruct s; [|left; exact H'].
      unfold store_set in H'. destruct (jstr_eqb k k0) eqn:E.
      * apply jstr_eqb_eq in E. subst k0. right. exists v0, t0. left. reflexivity.
      * left. exact H'.
    + right. exists v', t. right. exact H'.
  - destruct (IH st H) as [H'|(v' & t & H')]; [left; exact H'|right; exists v', t; right; exact H'].
Qed.

Ltac set_in_trace H :=
  cbn in H; repeat (destruct H as [H|H]; [try discriminate H|]); try contradiction;
  injection H as <- _ _.

Lemma search_handler_sets (md5 : jstr -> list Byte.byte) (r : SearchQuery) (be : Backend)
  (k : jstr) (v : Stored) (t : Z) :
  In (ECacheSet k v t) (fst (run (search_handler md5 r) be)) ->
  (is_distance (sort_by r) && (is_none (lat r) || is_none (lng r)))%bool = false /\
  k = search_key md5 r.
Proof.
  rewrite search_handler_run.
  destruct (match redis_get be (search_key md5 r) with
            | Ret (Some s) => json_parse s | _ => None end).
  { intros H; set_in_trace H. }
  destruct (is_distance (sort_by r) && (is_none (lat r) || is_none (lng r)))%bool eqn:Hc.
  { intros H; set_in_trace H. }
  unfold fetch_top_dishes; unfold_monad; cbn -[search_key conditions].
  destruct_calls be; cbn -[search_key conditions]; intros H; try (set_in_trace H; split; reflexivity).
  destruct (map (fun pr : PageRow => v_id (pr_venue pr)) a); cbn -[search_key conditions] in H;
    repeat match type of H with
    | context [redis_set be ?a ?b ?c] => destruct (redis_set be a b c)
    | context [db_dishes be ?x] => destruct (db_dishes be x)
    end; set_in_trace H; split; reflexivity.
Qed.

Lemma detail_handler_sets (slug : string) (be : Backend) (k : jstr) (v : Stored) (t : Z) :
  In (ECacheSet k v t) (fst (run (detail_handler slug) be)) -> k = restaurant_key slug.
Proof.
  rewrite detail_handler_run.
  destruct (match redis_get be (restaurant_key slug) with
            | Ret (Some s) => json_parse s | _ => None end);
    [|destruct (db_detail be _) as [|[|]]]; intros H; set_in_trace H; reflexivity.
Qed.

Lemma autocomplete_handler_sets (raw : jstr) (be : Backend) (k : jstr) (v : Stored) (t : Z) :
  In (ECacheSet k v t) (fst (run (autocomplete_handler raw) be)) -> k = auto_key (js_trim raw).
Proof.
  unfold autocomplete_handler. unfold_monad. cbn -[auto_key js_trim].
  destruct (redis_get be (auto_key (js_trim raw))) as [e|[w|]]; cbn -[auto_key js_trim];
    [| destruct (json_parse w); cbn -[auto_key js_trim] |];
    try (intros H; set_in_trace H; fail);
    destruct (db_auto_rest be (mkAutoRestQuery (js_trim raw) 5)),
      (db_auto_dish be (mkAutoDishQuery (js_trim raw) 5)); cbn -[auto_key js_trim];
    try destruct (redis_set be _ _ _); intros H; set_in_trace H; reflexivity.
Qed.

Lemma store_keys_reachable (md5 : jstr -> list Byte.byte) (st : Store) :
  reachable md5 st -> store_keys_ok md5 st.
Proof.
  induction 1 as [|st st' _ IH Hs].
  - intros k v H. discriminate H.
  - intros k v H. destruct Hs as [st r be g s|st slug be g s|st raw be g s|st k0].
    + apply apply_sets_some in H as [H|(v' & t & H)]; [exact (IH k v H)|].
      apply search_handler_sets in H as [Hc ->]. left. exists r. split; [exact Hc|reflexivity].
    + apply apply_sets_some in H as [H|(v' & t & H)]; [exact (IH k v H)|].
      apply detail_handler_sets in H as ->. right; left. exists slug. reflexivity.
    + apply apply_sets_some in H as [H|(v' & t & H)]; [exact (IH k v H)|].
      apply autocomplete_handler_sets in H as ->. right; right. exists (js_trim raw). reflexivity.
    + unfold store_del in H. destruct (jstr_eqb k k0); [discriminate H|exact (IH k v H)].
Qed.

Lemma search_key_not_restaurant_key (md5 : jstr -> list Byte.byte) (r : SearchQuery) (slug : string) :
  restaurant_key slug <> search_key md5 r.
Proof. unfold restaurant_key, search_key, search_cache_key. cbn [js list_ascii_of_string app]. discriminate. Qed.

Lemma search_key_not_auto_key (md5 : jstr -> list Byte.byte) (r : SearchQuery) (qq : jstr) :
  auto_key qq <> search_key md5 r.
Proof. unfold auto_key, search_key, search_cache_key. cbn [js list_ascii_of_string app]. discriminate. Qed.

Lemma query_entries_nodup (r : SearchQuery) : NoDup (map fst (query_entries r)).
Proof.
  destruct r as [q0 d c p m sb pg lm la ln].
  apply nodup_keys_sound.
  destruct d, c, p, m, la, ln; reflexivity.
Qed.

Lemma lookup_entry_in (k : jstr) (v : JsVal) (l : list entry) :
  lookup_entry k l = Some v -> In (k, v) l.
Proof.
  induction l as [|[k' v'] l IH]; cbn; [discriminate|].
  destruct (list_eq_dec ascii_dec k k') as [->|_]; [intros H; injection H as ->; left; reflexivity|].
  intros H; right; exact (IH H).
Qed.

Lemma in_lookup_entry (k : jstr) (v : JsVal) (l : list entry) :
  NoDup (map fst l) -> In (k, v) l -> lookup_entry k l = Some v.
Proof.
  induction l as [|[k' v'] l IH]; cbn; [contradiction|].
  intros Hnd Hin. inversion Hnd as [|? ? Hk Hnd']; subst.
  destruct (list_eq_dec ascii_dec k k') as [->|N].
  - destruct Hin as [E|Hin]; [injection E as ->; reflexivity|].
    exfalso. apply Hk. apply (in_map fst) in Hin. exact Hin.
  - destruct Hin as [E|Hin]; [injection E as -> _; congruence|]. exact (IH Hnd' Hin).
Qed.

Lemma lookup_entry_same_set (k : jstr) (l1 l2 : list entry) :
  NoDup (map fst l1) -> NoDup (map fst l2) -> (forall e, In e l1 <-> In e l2) ->
  lookup_entry k l1 = lookup_entry k l2.
Proof.
  intros H1 H2 Hs.
  destruct (lookup_entry k l1) as [v|] eqn:E1.
  - symmetry. apply in_lookup_entry; [exact H2|]. apply Hs, lookup_entry_in, E1.
  - destruct (lookup_entry k l2) as [v|] eqn:E2; [|reflexivity].
    rewrite (in_lookup_entry k v l1 H1) in E1; [discriminate|].
    apply Hs, lookup_entry_in, E2.
Qed.

Lemma query_entries_lookups (r : SearchQuery) :
  lookup_entry (js "sort_by") (query_entries r) = Some (JStr (js (sort_by_str (sort_by r)))) /\
  lookup_entry (js "lat") (query_entries r) = option_map JNum (lat r) /\
  lookup_entry (js "lng") (query_entries r) = option_map JNum (lng r).
Proof.
  destruct r as [q0 d c p m sb pg lm la ln].
  destruct d, c, p, m, la, ln; refine (conj _ (conj _ _)); reflexivity.
Qed.

(** Two queries holding the same field-to-value pairs agree on the
    coordinate check. *)
Lemma distance_check_same_set (r1 r2 : SearchQuery) :
  (forall e, In e (query_entries r1) <-> In e (query_entries r2)) ->
  (is_distance (sort_by r1) && (is_none (lat r1) || is_none (lng r1)))%bool =
  (is_distance (sort_by r2) && (is_none (lat r2) || is_none (lng r2)))%bool.
Proof.
  intros Hs.
  pose proof (query_entries_lookups r1) as (S1 & A1 & O1).
  pose proof (query_entries_lookups r2) as (S2 & A2 & O2).
  pose proof (fun k => lookup_entry_same_set k _ _ (query_entries_nodup r1)
                         (query_entries_nodup r2) Hs) as L.
  pose proof (L (js "sort_by")) as LS. pose proof (L (js "lat")) as LA.
  pose proof (L (js "lng")) as LO.
  rewrite S1, S2 in LS. rewrite A1, A2 in LA. rewrite O1, O2 in LO.
  assert (is_distance (sort_by r1) = is_distance (sort_by r2)) as ->.
  { destruct (sort_by r1), (sort_by r2); try reflexivity; discriminate LS. }
  assert (is_none (lat r1) = is_none (lat r2)) as ->.
  { destruct (lat r1), (lat r2); try reflexivity; discriminate LA. }
  assert (is_none (lng r1) = is_none (lng r2)) as ->.
  { destruct (lng r1), (lng r2); try reflexivity; discriminate LO. }
  reflexivity.
Qed.

(** Claim C4: in every Redis store the routes can produce, a search
    request with [sort_by=distance] and no [lat] or no [lng] gets the 400
    reply whose message names [lat] and [lng], after only the cache read
    (no Postgres query, no fallback ordering); the one way around it is an
    MD5 collision between its cache payload and that of a request that
    passes the check. *)
Theorem distance_without_coordinates_rejected (md5 : jstr -> list Byte.byte) (st : Store)
  (r : SearchQuery) (be : Backend) (g s : bool) :
  reachable md5 st ->
  is_distance (sort_by r) = true ->
  lat r = None \/ lng r = None ->
  (exists a b c, distance_error_message = (a ++ "lat" ++ b ++ "lng" ++ c)%string) /\
  (run (search_handler md5 r) (with_redis be st g s) =
     ([ECacheGet (search_key md5 r)], Ret (RBadRequest distance_error_message)) \/
   exists r', search_payload (query_entries r') <> search_payload (query_entries r) /\
     md5 (search_payload (query_entries r')) = md5 (search_payload (query_entries r))).
Proof.
  intros Hreach Hd Hmiss. split.
  { exists "Mesafeye gore siralama icin "%string, " ve "%string, " parametreleri gereklidir."%string.
    reflexivity. }
  assert (Hc : (is_distance (sort_by r) && (is_none (lat r) || is_none (lng r)))%bool = true).
  { rewrite Hd. destruct Hmiss as [-> | ->]; [reflexivity|]. destruct (lat r); reflexivity. }
  rewrite search_handler_run. cbn [redis_get with_redis].
  destruct g; [destruct (st (search_key md5 r)) as [v|] eqn:Hst|].
  - destruct (store_keys_reachable md5 st Hreach _ _ Hst)
      as [(r' & Hc' & Hk)|[(slug & Hk)|(qq & Hk)]].
    + unfold search_key in Hk.
      destruct (cache_key_same_or_collision md5 _ _ (query_entries_nodup r)
                  (query_entries_nodup r') Hk) as [Hs|(Hne & Hmd)].
      * rewrite (distance_check_same_set r r' Hs), Hc' in Hc. discriminate Hc.
      * right. exists r'. split; [intros E; apply Hne; symmetry; exact E|symmetry; exact Hmd].
    + exfalso. exact (search_key_not_restaurant_key md5 r slug (eq_sym Hk)).
    + exfalso. exact (search_key_not_auto_key md5 r qq (eq_sym Hk)).
  - rewrite Hc. left. reflexivity.
  - rewrite Hc. left. reflexivity.
Qed.

Lemma distance_without_coordinates_rejected_witness :
  (exists a b c, distance_error_message = (a ++ "lat" ++ b ++ "lng" ++ c)%string) /\
  (run (search_handler md5_zero query_no_lng)
     (with_redis backend0
        (apply_sets true (fst (run (search_handler md5_zero query_distance)
                                 (with_redis backend0 empty_store true true))) empty_store)
        true true) =
     ([ECacheGet (search_key md5_zero query_no_lng)], Ret (RBadRequest distance_error_message)) \/
   exists r', search_payload (query_entries r') <> search_payload (query_entries query_no_lng) /\
     md5_zero (search_payload (query_entries r')) =
       md5_zero (search_payload (query_entries query_no_lng))).
Proof.
  apply distance_without_coordinates_rejected.
  - eapply reach_step; [apply reach_init|apply step_search].
  - reflexivity.
  - right. reflexivity.
Defined.

(** * The remaining routes *)

Lemma round_half_up_ok : rounds_quotient round_half_up.
Proof.
  intros a b Hb. unfold round_half_up.
  pose proof (Z.div_mod (2 * a + b) (2 * b) ltac:(lia)) as H.
  pose proof (Z.mod_pos_bound (2 * a + b) (2 * b) ltac:(lia)) as H2.
  set (qq := (2 * a + b) / (2 * b)) in *. set (rr := (2 * a + b) mod (2 * b)) in *.
  apply Z.abs_lt. lia.
Qed.

Lemma rounded_percent (rnd : Z -> Z -> Z) (n t : Z) :
  rounds_quotient rnd -> 0 < t -> 0 <= n <= t ->
  0 <= rnd (100 * n) t <= 100 /\ t * rnd (100 * n) t < 100 * n + t.
Proof.
  intros Hr Ht Hn. specialize (Hr (100 * n) t Ht). apply Z.abs_lt in Hr.
  set (x := rnd (100 * n) t) in *.
  assert (-1 < x) by nia. assert (x < 101) by nia. lia.
Qed.

(** The sentiment summary of the detail route: with no mentions every
    percentage is 0; otherwise, when [rnd] rounds quotients and the counts are
    consistent, the three percentages add up to 100, the positive and negative
    ones lie in [0, 100] and the neutral one in [-1, 100]; -1 is reached. *)
Theorem sentiment_percentages (rnd : Z -> Z -> Z) (agg : list SentimentAgg) :
  rounds_quotient rnd ->
  Forall (fun a => 0 <= sa_positive a /\ 0 <= sa_negative a /\
                   sa_positive a + sa_negative a <= sa_total a) agg ->
  (ss_total (sentiment_summary rnd agg) <= 0 ->
     ss_positive (sentiment_summary rnd agg) = 0 /\ ss_negative (sentiment_summary rnd agg) = 0 /\
     ss_neutral (sentiment_summary rnd agg) = 0) /\
  (0 < ss_total (sentiment_summary rnd agg) ->
     ss_positive (sentiment_summary rnd agg) + ss_negative (sentiment_summary rnd agg) +
       ss_neutral (sentiment_summary rnd agg) = 100 /\
     0 <= ss_positive (sentiment_summary rnd agg) <= 100 /\
     0 <= ss_negative (sentiment_summary rnd agg) <= 100 /\
     -1 <= ss_neutral (sentiment_summary rnd agg) <= 100) /\
  ss_neutral (sentiment_summary round_half_up [mkSentimentAgg 8 1 7 0]) = -1.
Proof.
  intros Hr Ha. split; [|split]; [| |reflexivity].
  - unfold sentiment_summary; cbn [ss_total ss_positive ss_negative ss_neutral].
    intros H. destruct (0 <? _) eqn:E; [apply Z.ltb_lt in E; lia|]. auto.
  - destruct agg as [|a rest]; cbn [sentiment_summary ss_total ss_positive ss_negative ss_neutral]; [lia|]. intros Ht.
    inversion Ha as [|? ? (Hp & Hn & Hs) _]; subst.
    replace (0 <? sa_total a) with true by (symmetry; apply Z.ltb_lt; lia).
    destruct (rounded_percent rnd (sa_positive a) (sa_total a) Hr Ht ltac:(lia)) as [P1 P2].
    destruct (rounded_percent rnd (sa_negative a) (sa_total a) Hr Ht ltac:(lia)) as [N1 N2].
    set (p := rnd (100 * sa_positive a) (sa_total a)) in *.
    set (n := rnd (100 * sa_negative a) (sa_total a)) in *. set (t := sa_total a) in *.
    assert (t * p + t * n < t * 102) by lia.
    assert (p + n < 102).
    { apply (Z.mul_lt_mono_pos_l (sa_total a)); [lia|]. rewrite Z.mul_add_distr_l. lia. }
    lia.
Qed.

Lemma sentiment_percentages_witness :
  rounds_quotient round_half_up /\
  Forall (fun a => 0 <= sa_positive a /\ 0 <= sa_negative a /\
                   sa_positive a + sa_negative a <= sa_total a) [mkSentimentAgg 10 6 3 1] /\
  ss_positive (sentiment_summary round_half_up [mkSentimentAgg 10 6 3 1]) +
    ss_negative (sentiment_summary round_half_up [mkSentimentAgg 10 6 3 1]) +
    ss_neutral (sentiment_summary round_half_up [mkSentimentAgg 10 6 3 1]) = 100.
Proof.
  assert (Hf : Forall (fun a => 0 <= sa_positive a /\ 0 <= sa_negative a /\
                 sa_positive a + sa_negative a <= sa_total a) [mkSentimentAgg 10 6 3 1])
    by (repeat constructor; cbn; lia).
  split; [exact round_half_up_ok|]. split; [exact Hf|].
  destruct (sentiment_percentages round_half_up [mkSentimentAgg 10 6 3 1] round_half_up_ok Hf)
    as (_ & H & _).
  apply H. vm_compute. reflexivity.
Defined.

(** The overall sentiment of the detail route is [neutral] exactly when
    there are no mentions, [positive] exactly when the positive percentage is
    at least 60, and [negative] exactly when it is below 60 and the negative
    one is at least 40. *)
Theorem overall_sentiment_cases (rnd : Z -> Z -> Z) (agg : list SentimentAgg) :
  (ss_overall (sentiment_summary rnd agg) = OverallNeutral <-> ss_total (sentiment_summary rnd agg) = 0) /\
  (ss_overall (sentiment_summary rnd agg) = OverallPositive <-> 60 <= ss_positive (sentiment_summary rnd agg)) /\
  (ss_overall (sentiment_summary rnd agg) = OverallNegative <->
     ss_positive (sentiment_summary rnd agg) < 60 /\ 40 <= ss_negative (sentiment_summary rnd agg)).
Proof.
  unfold sentiment_summary; cbn [ss_total ss_positive ss_negative ss_neutral ss_overall].
  set (t := match agg with a :: _ => sa_total a | [] => 0 end).
  destruct (0 <? t) eqn:Et.
  - apply Z.ltb_lt in Et.
    destruct (60 <=? _) eqn:E1; [apply Z.leb_le in E1|apply Z.leb_gt in E1];
      [|destruct (40 <=? _) eqn:E2; [apply Z.leb_le in E2|apply Z.leb_gt in E2];
        [|destruct (t =? 0) eqn:E3; [apply Z.eqb_eq in E3; lia|]]];
      repeat split; intros; try discriminate; try lia; try reflexivity.
  - cbn. destruct (t =? 0) eqn:E3; [apply Z.eqb_eq in E3|apply Z.eqb_neq in E3];
      repeat split; intros; try discriminate; try lia; try reflexivity.
Qed.

Lemma mention_get_set (m : MentionMap) (k k' : Z) (v : list MentionedDish) :
  mention_get (mention_set m k' v) k = if k =? k' then Some v else mention_get m k.
Proof.
  induction m as [|[k0 v0] m IH]; cbn.
  - reflexivity.
  - destruct (k' =? k0) eqn:E1; cbn.
    + apply Z.eqb_eq in E1; subst k0. destruct (k =? k'); reflexivity.
    + rewrite IH. destruct (k =? k') eqn:E2; [|reflexivity].
      apply Z.eqb_eq in E2; subst k'. rewrite E1. reflexivity.
Qed.

Lemma mentions_fold (rows : list MentionRow) (m : MentionMap) (k : Z) :
  mentions_or_empty (mention_get (fold_left mention_step rows m) k) =
  mentions_or_empty (mention_get m k) ++
    map mentioned_dish (filter (fun x => mr_review x =? k) rows).
Proof.
  revert m. induction rows as [|x rows IH]; intros m; cbn.
  - rewrite app_nil_r. reflexivity.
  - rewrite IH. unfold mention_step. rewrite mention_get_set.
    destruct (k =? mr_review x) eqn:E.
    + apply Z.eqb_eq in E. subst k. rewrite Z.eqb_refl. cbn.
      destruct (mention_get m (mr_review x)); cbn; [|reflexivity].
      rewrite <- app_assoc. reflexivity.
    + rewrite Z.eqb_sym, E. reflexivity.
Qed.

(** The recent reviews of the detail route keep the reviews' ids and order,
    and each carries, in the order of the mention query's rows, the rows
    with its own id ([Bilinmeyen] for a missing dish name). *)
Theorem recent_reviews_mentions (fetch : list Z -> list MentionRow) (raw : list ReviewRow) :
  map rr_id (recent_reviews fetch raw) = map rv_id raw /\
  map rr_dishes (recent_reviews fetch raw) =
  map (fun r => map mentioned_dish
                  (filter (fun x => mr_review x =? rv_id r) (fetch (map rv_id raw)))) raw.
Proof.
  destruct raw as [|r0 raw]; [split; reflexivity|].
  unfold recent_reviews. rewrite !map_map. split; [reflexivity|].
  apply map_ext. intros r. cbn [rr_dishes].
  pose proof (mentions_fold (dish_mentions_result fetch (map rv_id (r0 :: raw))) [] (rv_id r)) as H.
  unfold mentions_by_review. cbn in H. exact H.
Qed.

Lemma fold_max_spec (l : list Z) (x : Z) :
  In (fold_left Z.max l x) (x :: l) /\ forall y, In y (x :: l) -> y <= fold_left Z.max l x.
Proof.
  revert x. induction l as [|a l IH]; intros x; cbn.
  - split; [left; reflexivity|]. intros y [<-|[]]; lia.
  - destruct (IH (Z.max x a)) as [H1 H2]. split.
    + destruct H1 as [E|E]; [|right; right; exact E].
      rewrite <- E. destruct (Z.max_spec x a) as [[_ ->]|[_ ->]]; [right; left|left]; reflexivity.
    + intros y [<-|[<-|Hy]].
      * specialize (H2 _ (or_introl eq_refl)). lia.
      * specialize (H2 _ (or_introl eq_refl)). lia.
      * apply H2. right. exact Hy.
Qed.

Lemma fold_min_spec (l : list Z) (x : Z) :
  In (fold_left Z.min l x) (x :: l) /\ forall y, In y (x :: l) -> fold_left Z.min l x <= y.
Proof.
  revert x. induction l as [|a l IH]; intros x; cbn.
  - split; [left; reflexivity|]. intros y [<-|[]]; lia.
  - destruct (IH (Z.min x a)) as [H1 H2]. split.
    + destruct H1 as [E|E]; [|right; right; exact E].
      rewrite <- E. destruct (Z.min_spec x a) as [[_ ->]|[_ ->]]; [left|right; left]; reflexivity.
    + intros y [<-|[<-|Hy]].
      * specialize (H2 _ (or_introl eq_refl)). lia.
      * specialize (H2 _ (or_introl eq_refl)). lia.
      * apply H2. right. exact Hy.
Qed.

Lemma fold_add_shift {A} (f : A -> Z) (l : list A) (acc : Z) :
  fold_left (fun s r => s + f r) l acc = acc + fold_right Z.add 0 (map f l).
Proof.
  revert acc. induction l as [|a l IH]; intros acc; cbn; [lia|]. rewrite IH. lia.
Qed.

Lemma fold_left_add (l : list Z) (acc : Z) :
  fold_left Z.add l acc = acc + fold_right Z.add 0 l.
Proof.
  revert acc. induction l as [|a l IH]; intros acc; cbn; [lia|]. rewrite IH. lia.
Qed.

Lemma sum_bounds (l : list Z) (lo hi : Z) :
  (forall y, In y l -> lo <= y <= hi) ->
  Z.of_nat (List.length l) * lo <= fold_right Z.add 0 l <= Z.of_nat (List.length l) * hi.
Proof.
  induction l as [|a l IH]; intros H; cbn [fold_right List.length]; [lia|].
  assert (lo <= a <= hi) by (apply H; left; reflexivity).
  assert (Z.of_nat (List.length l) * lo <= fold_right Z.add 0 l <= Z.of_nat (List.length l) * hi)
    by (apply IH; intros y Hy; apply H; right; exact Hy).
  rewrite Nat2Z.inj_succ. lia.
Qed.

(** The statistics of the dish route: the review total is the sum of the
    rows' review counts; with no rows average, maximum and minimum are null;
    otherwise maximum and minimum are scores of the rows, bound every score,
    and the average lies between them. *)
Theorem dish_stats_bounds (rnd : Z -> Z -> Z) (be : DishBackend) (slug : string)
  (resp : DishDetailResponse) :
  rounds_quotient rnd ->
  snd (dish_handler rnd be slug) = Ret (DishOk resp) ->
  ds_total_reviews (dd_stats resp) = fold_right Z.add 0 (map drs_reviews (dd_restaurants resp)) /\
  (dd_restaurants resp = [] ->
     ds_avg (dd_stats resp) = None /\ ds_max (dd_stats resp) = None /\ ds_min (dd_stats resp) = None) /\
  (dd_restaurants resp <> [] ->
     exists av mx mn,
       ds_avg (dd_stats resp) = Some av /\ ds_max (dd_stats resp) = Some mx /\
       ds_min (dd_stats resp) = Some mn /\
       In mx (map drs_score (dd_restaurants resp)) /\ In mn (map drs_score (dd_restaurants resp)) /\
       (forall x, In x (map drs_score (dd_restaurants resp)) -> mn <= x <= mx) /\
       mn <= av <= mx).
Proof.
  intros Hr H. unfold dish_handler in H.
  destruct (db_dish be slug) as [e|[|dish ds]]; cbn in H; try discriminate.
  set (nm := match dk_canonical dish with Some c => c | None => dk_name dish end) in H.
  destruct (db_dish_restaurants be nm) as [e|rows], (db_dish_sentiment be nm) as [e'|agg];
    cbn in H; try discriminate.
  injection H as <-. cbn [dd_stats dd_restaurants].
  unfold dish_stats.
  destruct rows as [|r0 rs] eqn:Ers; cbn [map].
  - cbn. split; [reflexivity|split; [auto|intros E; contradiction E; reflexivity]].
  - set (l := drs_score r0 :: map drs_score rs).
    split.
    { cbn [map fold_left fold_right ds_total_reviews].
      rewrite (fold_add_shift drs_reviews). lia. }
    split; [intros E; discriminate E|]. intros _.
    cbn [ds_avg ds_max ds_min].
    destruct (fold_max_spec (map drs_score rs) (drs_score r0)) as [M1 M2].
    destruct (fold_min_spec (map drs_score rs) (drs_score r0)) as [N1 N2].
    eexists _, _, _. split; [reflexivity|]. split; [reflexivity|]. split; [reflexivity|].
    unfold list_max, list_min. fold l in M1, M2, N1, N2.
    split; [exact M1|]. split; [exact N1|].
    split; [intros x Hx; split; [apply N2|apply M2]; exact Hx|].
    set (mx := fold_left Z.max (map drs_score rs) (drs_score r0)) in *.
    set (mn := fold_left Z.min (map drs_score rs) (drs_score r0)) in *.
    assert (Hs := sum_bounds l mn mx (fun y Hy => conj (N2 y Hy) (M2 y Hy))).
    replace (fold_left Z.add l 0) with (fold_right Z.add 0 l)
      by (rewrite fold_left_add; lia).
    assert (Hn : 0 < Z.of_nat (List.length l)) by (cbn [l List.length]; lia).
    specialize (Hr (fold_right Z.add 0 l) (Z.of_nat (List.length l)) Hn).
    apply Z.abs_lt in Hr.
    set (av := rnd _ _) in *. set (n := Z.of_nat (List.length l)) in *.
    assert (n * av < n * (mx + 1)) by lia.
    assert (n * (mn - 1) < n * av) by lia.
    split.
    + assert (mn - 1 < av) by (apply (Z.mul_lt_mono_pos_l n); lia). lia.
    + assert (av < mx + 1) by (apply (Z.mul_lt_mono_pos_l n); lia). lia.
Qed.

Lemma dish_stats_bounds_witness :
  rounds_quotient round_half_up /\
  snd (dish_handler round_half_up dish_backend0 "adana-kebap") = Ret (DishOk dish_response0) /\
  ds_total_reviews (dd_stats dish_response0) =
    fold_right Z.add 0 (map drs_reviews (dd_restaurants dish_response0)).
Proof.
  assert (Hok : snd (dish_handler round_half_up dish_backend0 "adana-kebap") = Ret (DishOk dish_response0))
    by (vm_compute; reflexivity).
  split; [exact round_half_up_ok|]. split; [exact Hok|].
  exact (proj1 (dish_stats_bounds round_half_up dish_backend0 "adana-kebap" dish_response0
                  round_half_up_ok Hok)).
Defined.

Lemma del_keys_spec (keys : list jstr) (st : Store) (k : jstr) :
  del_keys keys st k = st k \/ (del_keys keys st k = None /\ In k keys).
Proof.
  unfold del_keys. revert st. induction keys as [|k0 keys IH]; intros st; cbn; [left; reflexivity|].
  destruct (IH (store_del st k0)) as [H|[H1 H2]].
  - rewrite H. unfold store_del. destruct (jstr_eqb k k0) eqn:E.
    + apply jstr_eqb_eq in E. right. split; [reflexivity|left; symmetry; exact E].
    + left. reflexivity.
  - right. split; [exact H1|right; exact H2].
Qed.

(** [cacheDeletePattern] removes only keys its [SCAN] returned, and leaves
    every other key as it was, whatever Redis answers. *)
Theorem cache_delete_pattern_scanned_only (P : jstr -> Prop) (fuel : nat)
  (scan : Store -> jstr -> jstr -> result (jstr * list jstr))
  (del_ok : Store -> list jstr -> bool) (pattern : jstr) (st st' : Store) :
  (forall s c next keys, scan s c pattern = Ret (next, keys) -> Forall P keys) ->
  cacheDeletePattern fuel scan del_ok pattern st = Some st' ->
  forall k, st' k = st k \/ (st' k = None /\ P k).
Proof.
  intros HP. unfold cacheDeletePattern. generalize (js "0") as c. revert st.
  induction fuel as [|n IH]; intros st c H k; cbn [delete_pattern_loop] in H; [discriminate H|].
  destruct (scan st c pattern) as [e|[next keys]] eqn:Hs; [injection H as <-; left; reflexivity|].
  assert (Hk : forall k, del_keys keys st k = st k \/ (del_keys keys st k = None /\ P k)).
  { intros k0. destruct (del_keys_spec keys st k0) as [E|[E1 E2]]; [left; exact E|].
    right. split; [exact E1|]. pose proof (HP _ _ _ _ Hs) as HF.
    rewrite Forall_forall in HF. exact (HF k0 E2). }
  destruct keys as [|k1 ks]; [|destruct (del_ok st (k1 :: ks))]; cbv beta iota zeta in H.
  - destruct (jstr_eqb next (js "0")); cbv beta iota in H; [injection H as <-; left; reflexivity|].
    exact (IH _ _ H k).
  - destruct (jstr_eqb next (js "0")); cbv beta iota in H.
    + injection H as <-. apply Hk.
    + destruct (IH _ _ H k) as [E|[E1 E2]].
      * rewrite E. apply Hk.
      * right. split; assumption.
  - injection H as <-. left; reflexivity.
Qed.

Lemma cache_delete_pattern_scanned_only_witness :
  (forall s c next keys, scan_once s c (js "search:*") = Ret (next, keys) ->
     Forall (fun k => k = js "search:ab") keys) /\
  cacheDeletePattern 1 scan_once (fun _ _ => true) (js "search:*") store_ali =
    Some (del_keys [js "search:ab"] store_ali) /\
  (del_keys [js "search:ab"] store_ali (restaurant_key "kebapci-ali") =
     store_ali (restaurant_key "kebapci-ali") \/
   (del_keys [js "search:ab"] store_ali (restaurant_key "kebapci-ali") = None /\
    restaurant_key "kebapci-ali" = js "search:ab")).
Proof.
  assert (Hs : forall s c next keys, scan_once s c (js "search:*") = Ret (next, keys) ->
                 Forall (fun k => k = js "search:ab") keys).
  { intros s c next keys H. injection H as <- <-. repeat constructor. }
  assert (Hd : cacheDeletePattern 1 scan_once (fun _ _ => true) (js "search:*") store_ali =
                 Some (del_keys [js "search:ab"] store_ali)) by reflexivity.
  split; [exact Hs|]. split; [exact Hd|].
  exact (cache_delete_pattern_scanned_only (fun k => k = js "search:ab") 1 scan_once
           (fun _ _ => true) (js "search:*") store_ali _ Hs Hd (restaurant_key "kebapci-ali")).
Defined.

Lemma jstr_eqb_refl (k : jstr) : jstr_eqb k k = true.
Proof. apply jstr_eqb_eq. reflexivity. Qed.

Lemma apply_sets_app (s : bool) (tr1 tr2 : list event) (st : Store) :
  apply_sets s (tr1 ++ tr2) st = apply_sets s tr2 (apply_sets s tr1 st).
Proof.
  revert st. induction tr1 as [|[k|k v t|qq] tr1 IH]; intros st; cbn; auto.
Qed.

Lemma apply_sets_last (tr : list event) (st : Store) (k : jstr) (v : Stored) (t : Z) :
  apply_sets true (tr ++ [ECacheSet k v t]) st k = Some v.
Proof.
  rewrite apply_sets_app. cbn. unfold store_set. rewrite jstr_eqb_refl. reflexivity.
Qed.

Lemma last_cons_ex (a : event) (l : list event) (x : event) :
  (exists tr, l = tr ++ [x]) -> exists tr, a :: l = tr ++ [x].
Proof. intros [tr ->]. exists (a :: tr). reflexivity. Qed.

Ltac trace_last := repeat (first [exists []; reflexivity | apply last_cons_ex]).

Lemma search_ok_trace (md5 : jstr -> list Byte.byte) (r : SearchQuery) (be : Backend)
  (resp : SearchResponse) :
  snd (run (search_handler md5 r) be) = Ret (ROk resp) ->
  exists tr, fst (run (search_handler md5 r) be) = tr ++ [ECacheSet (search_key md5 r) (SSearch resp) 300].
Proof.
  rewrite search_handler_run.
  destruct (match redis_get be (search_key md5 r) with
            | Ret (Some s) => json_parse s | _ => None end); [discriminate|].
  destruct (is_distance (sort_by r) && (is_none (lat r) || is_none (lng r)))%bool; [discriminate|].
  unfold fetch_top_dishes; unfold_monad; cbn -[search_key conditions].
  destruct_calls be; cbn -[search_key conditions]; try discriminate.
  destruct (map (fun pr : PageRow => v_id (pr_venue pr)) _); cbn -[search_key conditions];
    repeat match goal with
    | |- context [redis_set be ?a ?b ?c] => destruct (redis_set be a b c)
    | |- context [db_dishes be ?x] => destruct (db_dishes be x)
    end; cbn -[search_key conditions]; try discriminate;
    intros H; injection H as <-; trace_last.
Qed.

Lemma detail_ok_trace (slug : string) (be : Backend) (resp : DetailResponse) :
  snd (run (detail_handler slug) be) = Ret (DOk resp) ->
  exists tr, fst (run (detail_handler slug) be) = tr ++ [ECacheSet (restaurant_key slug) (SDetail resp) 900].
Proof.
  rewrite detail_handler_run.
  destruct (match redis_get be (restaurant_key slug) with
            | Ret (Some s) => json_parse s | _ => None end); [discriminate|].
  destruct (db_detail be _) as [|[|]]; cbn; try discriminate.
  intros H; injection H as <-. trace_last.
Qed.

Lemma autocomplete_ok_trace (raw : jstr) (be : Backend) (resp : AutoResponse) :
  snd (run (autocomplete_handler raw) be) = Ret (AOk resp) ->
  exists tr, fst (run (autocomplete_handler raw) be) = tr ++ [ECacheSet (auto_key (js_trim raw)) (SAuto resp) 3600].
Proof.
  unfold autocomplete_handler. unfold_monad. cbn -[auto_key js_trim].
  destruct (redis_get be (auto_key (js_trim raw))) as [e|[w|]]; cbn -[auto_key js_trim];
    [| destruct (json_parse w); cbn -[auto_key js_trim]; [discriminate|] |];
    destruct (db_auto_rest be (mkAutoRestQuery (js_trim raw) 5)),
      (db_auto_dish be (mkAutoDishQuery (js_trim raw) 5)); cbn -[auto_key js_trim]; try discriminate;
    destruct (redis_set be _ _ _); cbn -[auto_key js_trim]; intros H; injection H as <-; trace_last.
Qed.

Lemma with_redis_get (be : Backend) (st : Store) (s : bool) (k : jstr) :
  redis_get (with_redis be st true s) k = Ret (st k).
Proof. reflexivity. Qed.

(** Once a search, detail or autocomplete request has been answered from
    Postgres and its write has reached Redis, the same request is answered
    with the stored response from the cache, whatever Postgres holds then;
    search and detail issue no other call. *)
Theorem repeat_request_served_from_cache (md5 : jstr -> list Byte.byte) (be be' : Backend)
  (st : Store) (s : bool) :
  (forall r resp,
     snd (run (search_handler md5 r) (with_redis be st true true)) = Ret (ROk resp) ->
     run (search_handler md5 r)
       (with_redis be' (apply_sets true (fst (run (search_handler md5 r) (with_redis be st true true))) st) true s)
     = ([ECacheGet (search_key md5 r)], Ret (RHit (SSearch resp)))) /\
  (forall slug resp,
     snd (run (detail_handler slug) (with_redis be st true true)) = Ret (DOk resp) ->
     run (detail_handler slug)
       (with_redis be' (apply_sets true (fst (run (detail_handler slug) (with_redis be st true true))) st) true s)
     = ([ECacheGet (restaurant_key slug)], Ret (DHit (SDetail resp)))) /\
  (forall raw resp,
     snd (run (autocomplete_handler raw) (with_redis be st true true)) = Ret (AOk resp) ->
     snd (run (autocomplete_handler raw)
       (with_redis be' (apply_sets true (fst (run (autocomplete_handler raw) (with_redis be st true true))) st) true s))
     = Ret (AHit (SAuto resp))).
Proof.
  split; [|split].
  - intros r resp H. apply search_ok_trace in H as [tr Htr].
    rewrite search_handler_run, with_redis_get, Htr, apply_sets_last. reflexivity.
  - intros slug resp H. apply detail_ok_trace in H as [tr Htr].
    rewrite detail_handler_run, with_redis_get, Htr, apply_sets_last. reflexivity.
  - intros raw resp H. apply autocomplete_ok_trace in H as [tr Htr].
    rewrite autocomplete_handler_reply, with_redis_get, Htr, apply_sets_last. reflexivity.
Qed.

Lemma repeat_request_served_from_cache_witness :
  snd (run (autocomplete_handler (js "Kebapci")) (with_redis backend0 empty_store true true)) =
    Ret (AOk auto_response0) /\
  snd (run (autocomplete_handler (js "Kebapci")) (with_redis backend_closed store_auto true true)) =
    Ret (AHit (SAuto auto_response0)).
Proof.
  assert (Hok : snd (run (autocomplete_handler (js "Kebapci")) (with_redis backend0 empty_store true true)) =
                  Ret (AOk auto_response0)) by (vm_compute; reflexivity).
  split; [exact Hok|].
  exact (proj2 (proj2 (repeat_request_served_from_cache md5_zero backend0 backend_closed
                         empty_store true)) (js "Kebapci") auto_response0 Hok).
Defined.

Lemma total_pages_bounds (total lim : Z) :
  0 < lim -> (total_pages total lim - 1) * lim < total <= total_pages total lim * lim.
Proof.
  intros Hl. unfold total_pages.
  pose proof (Z.div_mod (- total) lim ltac:(lia)) as Hd.
  pose proof (Z.mod_pos_bound (- total) lim Hl) as Hm.
  set (d := (- total) / lim) in *. set (m := (- total) mod lim) in *. nia.
Qed.

Lemma has_next_iff (pg total lim : Z) :
  0 < lim -> (pg <? total_pages total lim) = (pg * lim <? total).
Proof.
  intros Hl. pose proof (total_pages_bounds total lim Hl) as [H1 H2].
  set (tp := total_pages total lim) in *.
  destruct (pg <? tp) eqn:E1, (pg * lim <? total) eqn:E2; try reflexivity;
    rewrite ?Z.ltb_lt, ?Z.ltb_ge in E1, E2; exfalso.
  - assert (pg * lim <= (tp - 1) * lim) by (apply Z.mul_le_mono_nonneg_r; lia). lia.
  - assert (tp * lim <= pg * lim) by (apply Z.mul_le_mono_nonneg_r; lia). lia.
Qed.

Lemma in_firstn_in {A} (n : nat) (l : list A) (x : A) : In x (firstn n l) -> In x l.
Proof. intros H. rewrite <- (firstn_skipn n l). apply in_or_app. left; exact H. Qed.

Lemma in_skipn_in {A} (n : nat) (l : list A) (x : A) : In x (skipn n l) -> In x l.
Proof. intros H. rewrite <- (firstn_skipn n l). apply in_or_app. right; exact H. Qed.

(** A search response computed from a faithful Postgres: [total] counts the
    matching active venues, the page holds [min(limit, total - offset)] items,
    [totalPages] is [ceil(total / limit)], [hasNext] is [page * limit < total],
    [hasPrev] is [page > 1]; each item is a matching venue, with its distance
    in kilometres when coordinates are given (at most 10, the radius of the
    filter) and null otherwise. *)
Theorem search_page_contents (E : Engine) (s : Snapshot) (md5 : jstr -> list Byte.byte)
  (r : SearchQuery) (be : Backend) (resp : SearchResponse) :
  storage_faithful E s be ->
  snd (run (search_handler md5 r) be) = Ret (ROk resp) ->
  1 <= page r -> 1 <= limit r ->
  let total := Z.of_nat (List.length (filter (eval_where E (conditions r)) (venues s))) in
  pg_total (sr_pagination resp) = total /\
  Z.of_nat (List.length (sr_data resp)) = Z.min (limit r) (Z.max 0 (total - (page r - 1) * limit r)) /\
  (pg_total_pages (sr_pagination resp) - 1) * limit r < total <=
    pg_total_pages (sr_pagination resp) * limit r /\
  pg_has_next (sr_pagination resp) = (page r * limit r <? total) /\
  pg_has_prev (sr_pagination resp) = (1 <? page r) /\
  Forall (fun it => exists v,
      In v (venues s) /\ eval_where E (conditions r) v = true /\ it_id it = v_id v /\
      it_distance it = match lat r, lng r with
                       | Some la, Some ln => option_map to_km (distance_to E (Some ln) (Some la) v)
                       | _, _ => None
                       end /\
      match lat r, lng r with
      | Some _, Some _ => exists d, it_distance it = Some d /\ (d <= inject_Z 10)%Q
      | _, _ => True
      end) (sr_data resp).
Proof.
  intros (Hpage & Hcount & _) Hok Hpg Hlim total.
  destruct (search_ok_inv md5 r be resp Hok) as (results & n & m & Hres & Hn & -> & _ & _).
  apply Hcount in Hn. unfold count_admissible in Hn; cbn [cq_where] in Hn. fold total in Hn. subst n.
  destruct (Hpage _ _ Hres) as (l & Hperm & _ & Hrl); cbn [pq_where pq_limit pq_offset] in Hperm, Hrl.
  unfold build_response; cbn [sr_data sr_pagination pg_total pg_total_pages pg_has_next pg_has_prev].
  split; [reflexivity|]. split.
  { subst results. rewrite !length_map, length_firstn, length_skipn.
    rewrite (Permutation_length Hperm). fold total.
    assert (0 <= (page r - 1) * limit r) by nia.
    generalize dependent ((page r - 1) * limit r). intros off Hoff.
    subst total. lia. }
  split; [apply total_pages_bounds; lia|].
  split; [apply has_next_iff; lia|]. split; [reflexivity|].
  subst results. rewrite Forall_forall. intros it Hit.
  apply in_map_iff in Hit as (pr & <- & Hpr).
  apply in_map_iff in Hpr as (v & <- & Hv).
  apply in_firstn_in, in_skipn_in in Hv. apply (Permutation_in _ Hperm) in Hv.
  apply filter_In in Hv as [Hin Hw].
  exists v. split; [exact Hin|]. split; [exact Hw|]. split; [reflexivity|].
  unfold item_of, page_row, origin; cbn [it_distance pr_distance pr_venue pq_origin it_id].
  destruct (lat r) as [la|] eqn:Hla, (lng r) as [ln|] eqn:Hln; try (split; reflexivity).
  split; [reflexivity|].
  assert (Hg : eval_pred E (PGeo ln la 10000) v = true).
  { unfold eval_where in Hw. rewrite forallb_forall in Hw. apply Hw.
    unfold conditions. rewrite Hla, Hln. apply in_or_app; right.
    repeat (apply in_or_app; right). left; reflexivity. }
  cbn in Hg. unfold distance_to. destruct (v_location v) as [loc|]; [|discriminate].
  exists (to_km (geo_distance E loc (ln, la))). split; [reflexivity|].
  apply Z.leb_le in Hg. unfold to_km, Qle; cbn [Qnum Qden inject_Z]. lia.
Qed.

Lemma search_page_contents_witness :
  storage_faithful engine0 snapshot0 backend0 /\
  snd (run (search_handler md5_zero query_distance) backend0) = Ret (ROk response_distance) /\
  1 <= page query_distance /\ 1 <= limit query_distance /\
  pg_has_next (sr_pagination response_distance) =
    (page query_distance * limit query_distance <?
       Z.of_nat (List.length (filter (eval_where engine0 (conditions query_distance)) (venues snapshot0)))).
Proof.
  assert (Hf : storage_faithful engine0 snapshot0 backend0) by apply ref_backend_faithful.
  assert (Hok : snd (run (search_handler md5_zero query_distance) backend0) = Ret (ROk response_distance))
    by (vm_compute; reflexivity).
  assert (Hp : 1 <= page query_distance) by (vm_compute; discriminate).
  assert (Hl : 1 <= limit query_distance) by (vm_compute; discriminate).
  split; [exact Hf|]. split; [exact Hok|]. split; [exact Hp|]. split; [exact Hl|].
  destruct (search_page_contents engine0 snapshot0 md5_zero query_distance backend0 response_distance
              Hf Hok Hp Hl) as (_ & _ & _ & H & _).
  exact H.
Defined.

Lemma check_num_range (name : string) (lo hi : Z) (o : option RawNum) (v : option Z) (z : Z) :
  check_num name lo hi o = inr v -> v = Some z -> lo <= z <= hi.
Proof.
  unfold check_num. intros H ->.
  destruct o as [[|z']|]; try discriminate.
  destruct ((lo <=? z') && (z' <=? hi))%bool eqn:E; [|discriminate].
  injection H as ->. apply andb_prop in E as [E1 E2]. apply Z.leb_le in E1, E2. lia.
Qed.

Lemma check_page_pos (o : option RawNum) (z : Z) : check_page o = inr z -> 1 <= z.
Proof.
  unfold check_page. destruct o as [[|z']|]; try discriminate.
  - destruct (0 <? z') eqn:E; [|discriminate]. intros H; injection H as <-. apply Z.ltb_lt in E. lia.
  - intros H; injection H as <-. lia.
Qed.

Lemma check_limit_range (o : option RawNum) (z : Z) : check_limit o = inr z -> 1 <= z <= 50.
Proof.
  unfold check_limit. destruct o as [[|z']|]; try discriminate.
  - destruct ((1 <=? z') && (z' <=? 50))%bool eqn:E; [|discriminate]. intros H; injection H as <-.
    apply andb_prop in E as [E1 E2]. apply Z.leb_le in E1, E2. lia.
  - intros H; injection H as <-. lia.
Qed.

Lemma check_cuisine_value (o : option jstr) (v : option string) (c : string) :
  check_cuisine o = inr v -> v = Some c -> In c cuisine_values.
Proof.
  unfold check_cuisine. intros H ->. destruct o as [s|]; [|discriminate].
  destruct (existsb (String.eqb (string_of_list_ascii s)) cuisine_values) eqn:E; [|discriminate].
  injection H as <-. apply existsb_exists in E as (x & Hx & Heq). apply String.eqb_eq in Heq.
  subst x. exact Hx.
Qed.

Lemma validate_search_fields (raw : RawSearch) (r : SearchQuery) :
  validate_search raw = inr r ->
  check_district (raw_district raw) = inr (district r) /\
  check_cuisine (raw_cuisine raw) = inr (cuisine r) /\
  check_num "price_range" 1 4 (raw_price_range raw) = inr (price_range r) /\
  check_num "min_score" 1 10 (raw_min_score raw) = inr (min_score r) /\
  check_page (raw_page raw) = inr (page r) /\
  check_limit (raw_limit raw) = inr (limit r) /\
  check_num "lat" (-90) 90 (raw_lat raw) = inr (lat r) /\
  check_num "lng" (-180) 180 (raw_lng raw) = inr (lng r).
Proof.
  unfold validate_search.
  destruct (check_q _), (check_district _), (check_cuisine _),
    (check_num "price_range" _ _ _), (check_num "min_score" _ _ _), (check_sort _),
    (check_page _), (check_limit _), (check_num "lat" _ _ _), (check_num "lng" _ _ _);
    try discriminate.
  intros H; injection H as <-. cbn. repeat split.
Qed.

Lemma cuisine_values_nonempty (c : string) : In c cuisine_values -> c <> ""%string.
Proof. intros H ->. cbn in H. repeat (destruct H as [H|H]; [discriminate|]). exact H. Qed.

(** A querystring the search schema accepts has [page >= 1],
    [1 <= limit <= 50] and coordinates in range; a given price range (1..4),
    minimum score (1..10) or cuisine (one of the enum values) becomes a
    condition of the query; a district becomes a condition exactly when it is
    not the empty string. *)
Theorem accepted_search_filters (raw : RawSearch) (r : SearchQuery) :
  validate_search raw = inr r ->
  1 <= page r /\ 1 <= limit r <= 50 /\
  (forall la, lat r = Some la -> -90 <= la <= 90) /\
  (forall ln, lng r = Some ln -> -180 <= ln <= 180) /\
  (forall p, price_range r = Some p -> 1 <= p <= 4 /\ In (PPrice p) (conditions r)) /\
  (forall m, min_score r = Some m -> 1 <= m <= 10 /\ In (PMinScore m) (conditions r)) /\
  (forall c, cuisine r = Some c -> In c cuisine_values /\ In (PCuisine c) (conditions r)) /\
  (forall d, In (PDistrict d) (conditions r) <-> district r = Some d /\ d <> ""%string).
Proof.
  intros H. apply validate_search_fields in H as (Hd & Hc & Hp & Hm & Hpg & Hl & Hla & Hln).
  split; [exact (check_page_pos _ _ Hpg)|].
  split; [exact (check_limit_range _ _ Hl)|].
  split; [intros la E; exact (check_num_range _ _ _ _ _ _ Hla E)|].
  split; [intros ln E; exact (check_num_range _ _ _ _ _ _ Hln E)|].
  unfold conditions.
  split.
  { intros p E. pose proof (check_num_range _ _ _ _ _ _ Hp E). split; [exact H|].
    rewrite E. unfold truthy_num. replace (p =? 0) with false by (symmetry; apply Z.eqb_neq; lia).
    apply in_or_app; right. do 2 (apply in_or_app; right). apply in_or_app; left. left; reflexivity. }
  split.
  { intros m E. pose proof (check_num_range _ _ _ _ _ _ Hm E). split; [exact H|].
    rewrite E. unfold truthy_num. replace (m =? 0) with false by (symmetry; apply Z.eqb_neq; lia).
    apply in_or_app; right. do 3 (apply in_or_app; right). apply in_or_app; left. left; reflexivity. }
  split.
  { intros c E. pose proof (check_cuisine_value _ _ _ Hc E) as Hin. split; [exact Hin|].
    rewrite E. unfold truthy_str.
    destruct (String.eqb c "") eqn:Ec; [apply String.eqb_eq in Ec; exfalso; exact (cuisine_values_nonempty c Hin Ec)|].
    apply in_or_app; right. do 1 (apply in_or_app; right). apply in_or_app; left. left; reflexivity. }
  intros d. split.
  - intros Hin. cbn [app] in Hin.
    destruct Hin as [Hin|[Hin|Hin]]; try discriminate.
    apply in_app_or in Hin as [Hin|Hin].
    + unfold truthy_str in Hin. destruct (district r) as [d'|]; [|contradiction].
      destruct (String.eqb d' "") eqn:Ed; [contradiction|].
      destruct Hin as [Hin|[]]. injection Hin as ->. split; [reflexivity|].
      intros ->. discriminate.
    + exfalso. revert Hin.
      destruct (truthy_str (cuisine r)), (truthy_num (price_range r)), (truthy_num (min_score r)),
        (lat r), (lng r); cbn; intros Hin; repeat (destruct Hin as [Hin|Hin]; [discriminate|]); exact Hin.
  - intros [E Hne]. rewrite E. unfold truthy_str.
    destruct (String.eqb d "") eqn:Ed; [apply String.eqb_eq in Ed; contradiction|].
    apply in_or_app; right. apply in_or_app; left. left; reflexivity.
Qed.

Lemma accepted_search_filters_witness :
  validate_search raw_empty_district =
    inr (mkSearch "kebap" (Some EmptyString) (Some "kebap"%string) (Some 2) None SortScore 1 20 None None) /\
  In (PPrice 2) (conditions (mkSearch "kebap" (Some EmptyString) (Some "kebap"%string) (Some 2) None
                               SortScore 1 20 None None)) /\
  ~ In (PDistrict EmptyString) (conditions (mkSearch "kebap" (Some EmptyString) (Some "kebap"%string)
                                              (Some 2) None SortScore 1 20 None None)).
Proof.
  assert (Hv : validate_search raw_empty_district =
    inr (mkSearch "kebap" (Some EmptyString) (Some "kebap"%string) (Some 2) None SortScore 1 20 None None))
    by (vm_compute; reflexivity).
  destruct (accepted_search_filters _ _ Hv) as (_ & _ & _ & _ & Hp & _ & _ & Hd).
  split; [exact Hv|]. split; [exact (proj2 (Hp 2 eq_refl))|].
  intros H. apply Hd in H as [_ H]. exact (H eq_refl).
Defined.

Lemma js_space_lower (c : ascii) : js_space (js_lower_char c) = js_space c.
Proof.
  destruct c as [b0 b1 b2 b3 b4 b5 b6 b7].
  destruct b0, b1, b2, b3, b4, b5, b6, b7; vm_compute; reflexivity.
Qed.

Lemma drop_space_lower (s : jstr) : drop_space (js_lower s) = js_lower (drop_space s).
Proof.
  induction s as [|c s IH]; [reflexivity|]. cbn. rewrite js_space_lower.
  destruct (js_space c); [exact IH|reflexivity].
Qed.

Lemma js_trim_lower (s : jstr) : js_trim (js_lower s) = js_lower (js_trim s).
Proof.
  assert (Hd : forall x, drop_space (map js_lower_char x) = map js_lower_char (drop_space x))
    by exact drop_space_lower.
  unfold js_trim, js_lower. rewrite Hd, <- map_rev, Hd, <- map_rev. reflexivity.
Qed.

Lemma drop_space_head_ok (l : jstr) : head_ok (drop_space l).
Proof.
  induction l as [|c l IH]; [exact I|]. cbn.
  destruct (js_space c) eqn:E; [exact IH|exact E].
Qed.

Lemma drop_space_fix (l : jstr) : head_ok l -> drop_space l = l.
Proof. destruct l as [|c l]; [reflexivity|]. cbn. intros ->. reflexivity. Qed.

Lemma drop_space_suffix (l : jstr) : exists p, l = p ++ drop_space l.
Proof.
  induction l as [|c l [p Hp]]; [exists []; reflexivity|]. cbn.
  destruct (js_space c); [exists (c :: p); cbn; f_equal; exact Hp|exists []; reflexivity].
Qed.

Lemma head_ok_app (x y : jstr) : head_ok (x ++ y) -> head_ok x.
Proof. destruct x; [intros; exact I|exact (fun H => H)]. Qed.

Lemma js_trim_idem (s : jstr) : js_trim (js_trim s) = js_trim s.
Proof.
  unfold js_trim at 2 3.
  set (t := drop_space s). set (u := drop_space (rev t)).
  assert (Hu : head_ok (rev u)).
  { destruct (drop_space_suffix (rev t)) as [p Hp]. fold u in Hp.
    assert (Ht : t = rev u ++ rev p) by (rewrite <- rev_app_distr, <- Hp, rev_involutive; reflexivity).
    apply (head_ok_app _ (rev p)). rewrite <- Ht. apply drop_space_head_ok. }
  unfold js_trim. rewrite (drop_space_fix _ Hu), rev_involutive.
  rewrite (drop_space_fix u (drop_space_head_ok _)). reflexivity.
Qed.

(** The autocomplete cache key is [autocomplete:] followed by the trimmed
    query in lower case: two queries share a key exactly when they agree after
    trimming and lower-casing. *)
Theorem autocomplete_key_case_insensitive (a b : jstr) :
  auto_key (js_trim a) = js "autocomplete:" ++ js_lower (js_trim a) /\
  (auto_key (js_trim a) = auto_key (js_trim b) <-> js_lower (js_trim a) = js_lower (js_trim b)).
Proof.
  assert (Hk : forall x, auto_key (js_trim x) = js "autocomplete:" ++ js_lower (js_trim x)).
  { intros x. unfold auto_key. rewrite js_trim_lower, js_trim_idem. reflexivity. }
  split; [apply Hk|]. rewrite !Hk. split.
  - apply app_inv_head.
  - intros ->. reflexivity.
Qed.

Lemma drop_space_all (s : jstr) : forallb js_space s = true -> drop_space s = [].
Proof.
  induction s as [|c s IH]; [reflexivity|]. cbn. intros H.
  apply andb_prop in H as [-> H]. exact (IH H).
Qed.

(** A query of 2 to 50 white-space characters passes the autocomplete
    schema and runs the handler on the empty string: its first call reads
    the key [autocomplete:], and on a cache miss the next two are the
    restaurant and the dish suggestion queries, both with an empty [q]. *)
Theorem autocomplete_blank_query (raw : jstr) (be : Backend) :
  forallb js_space raw = true -> (2 <= List.length raw <= 50)%nat ->
  autocomplete_endpoint (Some raw) = (rep <- autocomplete_handler [] ;; ret (AutoHandled rep)) /\
  hd_error (fst (run (autocomplete_endpoint (Some raw)) be)) = Some (ECacheGet (js "autocomplete:")) /\
  (match redis_get be (js "autocomplete:") with
   | Ret (Some x) => json_parse x | _ => None end = None ->
   firstn 3 (fst (run (autocomplete_endpoint (Some raw)) be)) =
     [ECacheGet (js "autocomplete:"); EStorage (QAutoRest (mkAutoRestQuery [] 5));
      EStorage (QAutoDish (mkAutoDishQuery [] 5))]).
Proof.
  intros Hsp Hlen.
  assert (Ht : js_trim raw = []) by (unfold js_trim; rewrite (drop_space_all raw Hsp); reflexivity).
  assert (He : autocomplete_endpoint (Some raw) = (rep <- autocomplete_handler [] ;; ret (AutoHandled rep))).
  { unfold autocomplete_endpoint, check_auto_q.
    replace ((2 <=? Z.of_nat (List.length raw)) && (Z.of_nat (List.length raw) <=? 50))%bool with true
      by (symmetry; apply andb_true_intro; split; apply Z.leb_le; lia).
    unfold autocomplete_handler. rewrite Ht. reflexivity. }
  split; [exact He|]. rewrite He.
  change (js "autocomplete:") with (auto_key (js_trim [])).
  unfold autocomplete_handler. unfold_monad. cbn -[auto_key js_trim].
  destruct (redis_get be (auto_key (js_trim []))) as [e|[w|]]; cbn -[auto_key js_trim];
    [| destruct (json_parse w); cbn -[auto_key js_trim] |];
    try (split; [reflexivity|]; intros Hm; discriminate Hm);
    destruct (db_auto_rest be (mkAutoRestQuery (js_trim []) 5)),
      (db_auto_dish be (mkAutoDishQuery (js_trim []) 5)); cbn -[auto_key js_trim];
    try destruct (redis_set be _ _ _); cbn -[auto_key js_trim];
    (split; [reflexivity|]); intros _; reflexivity.
Qed.

Lemma autocomplete_blank_query_witness :
  forallb js_space (js "   ") = true /\ (2 <= List.length (js "   ") <= 50)%nat /\
  match redis_get backend0 (js "autocomplete:") with
  | Ret (Some x) => json_parse x | _ => None end = None /\
  firstn 3 (fst (run (autocomplete_endpoint (Some (js "   "))) backend0)) =
    [ECacheGet (js "autocomplete:"); EStorage (QAutoRest (mkAutoRestQuery [] 5));
     EStorage (QAutoDish (mkAutoDishQuery [] 5))].
Proof.
  assert (Hs : forallb js_space (js "   ") = true) by reflexivity.
  assert (Hl : (2 <= List.length (js "   ") <= 50)%nat) by (cbn; lia).
  assert (Hm : match redis_get backend0 (js "autocomplete:") with
               | Ret (Some x) => json_parse x | _ => None end = None) by reflexivity.
  split; [exact Hs|]. split; [exact Hl|]. split; [exact Hm|].
  exact (proj2 (proj2 (autocomplete_blank_query (js "   ") backend0 Hs Hl)) Hm).
Defined.
